(** * deathgenerator2yaff: sprite-sheet fonts to YAFF

    A shallow embedding of [deathgenerator2yaff.py] and the properties of
    its classifier, override step, glyph extractor, section emitter,
    coverage labels and file names.

    Conventions of the embedding.
    - Positions [x] and [y] are integers, as the numbers of a glyph table
      are; widths and heights are natural numbers; colour channels and
      per-glyph bearings are integers.
    - The sprite sheet is what the program sees of it after the conversion
      to RGBA: its [size] and its [getpixel], which answers
      [Some (r, g, b, a)] or [None] (the exception that the program
      catches).  Nothing is assumed of where [getpixel] answers; [sheet]
      builds the images of the examples the way the imaging library serves
      them: a negative coordinate counts from the opposite edge, and a
      position that is still outside raises.
    - Python dictionaries that are iterated ([font_data], [subfonts], the
      override table) are association lists in insertion order.
    - The ratios the program stores as floats ([dark / total] and the like)
      are exact rationals here, and the float constants 0.1, 0.2, 0.3, 0.4,
      0.8 they are compared with are the rationals they denote.  For pixel
      counts below 2^50 the comparisons of the program agree with the exact
      ones, because the quotient of two such counts is either equal to the
      constant as a rational (and then rounds to the same double) or
      differs from it by far more than one unit in the last place.
    - The centroids of the spatial analysis and their offset are binary64
      numbers, computed operation by operation as the program does:
      [sum / len] is the quotient of the two integers rounded once, the
      differences and the sum are IEEE 754 operations, [v ** 2] and
      [v ** 0.5] are taken correctly rounded (the product [v * v] and the
      square root).  Overflow does not arise for images of less than 2^31
      pixels a side, the limit of the imaging library. *)

From Stdlib Require Import ZArith QArith List String Ascii Bool Lia Arith.
From Stdlib Require Import Sorting.Sorted Sorting.Permutation.
From Stdlib Require Import Numbers.DecimalString Numbers.HexadecimalString.
From Stdlib Require Import Numbers.HexadecimalN.
From Stdlib Require Import Floats.SpecFloat.
From Stdlib Require Numbers.DecimalFacts Numbers.DecimalPos.
From Stdlib Require Numbers.DecimalNat Numbers.DecimalZ.
Import ListNotations.

Local Open Scope nat_scope.

(** A natural number where an integer is expected: a width added to a
    position, a count divided as an integer. *)
Local Coercion Z.of_nat : nat >-> Z.

(** ** Sprite sheet *)

Definition rgba : Type := (Z * Z * Z * Z)%type.

Record image : Type := {
  size : nat * nat;                       (* (width, height), as [image.size] *)
  getpixel : Z -> Z -> option rgba        (* [image.getpixel((px, py))] *)
}.

(** An image of [width] by [height] pixels with the given contents, as the
    imaging library serves it: a negative coordinate has the size added
    once, and the position is then read if it is inside. *)
Definition sheet (width height : nat) (pixel_at : nat -> nat -> rgba) : image :=
  {| size := (width, height);
     getpixel := fun px py =>
       let px := if (px <? 0)%Z then (width + px)%Z else px in
       let py := if (py <? 0)%Z then (height + py)%Z else py in
       if (0 <=? px)%Z && (px <? width)%Z && (0 <=? py)%Z && (py <? height)%Z
       then Some (pixel_at (Z.to_nat px) (Z.to_nat py))
       else None |}.

(** [range(a, b)] of Python. *)
Definition range (a b : Z) : list Z :=
  map (fun i : nat => (a + i)%Z) (seq 0 (Z.to_nat (b - a))).

(** [max(r, g, b)]. *)
Definition max3 (r g b : Z) : Z := Z.max (Z.max r g) b.

(** The two nested loops shared by [detect_spatial_pattern] and
    [analyze_font_pattern]: rows [y .. min(y+h, H)), columns
    [x .. min(x+w, W)), row-major, each pixel with its local position. *)
Definition scan (im : image) (x y : Z) (w h : nat) : list (Z * Z * rgba) :=
  flat_map (fun py =>
    flat_map (fun px =>
      match getpixel im px py with
      | Some p => [((px - x)%Z, (py - y)%Z, p)]
      | None => []
      end)
      (range x (Z.min (x + w) (fst (size im)))))
    (range y (Z.min (y + h) (snd (size im)))).

(** ** Binary64 arithmetic *)

(** Python's [float]: IEEE 754 binary64, by the reference operations of
    the standard library's [SpecFloat]. *)
Definition float : Type := spec_float.

Definition prec : Z := 53%Z.
Definition emax : Z := 1024%Z.

(** [a / b] for two integers, [b] positive: the quotient, rounded once. *)
Definition int_div (a b : Z) : float :=
  match a, b with
  | Z0, Zpos _ => S754_zero false
  | Zpos p, Zpos q => SFdiv prec emax (S754_finite false p 0) (S754_finite false q 0)
  | Zneg p, Zpos q => SFdiv prec emax (S754_finite true p 0) (S754_finite false q 0)
  | _, _ => S754_nan
  end.

Definition fsub : float -> float -> float := SFsub prec emax.
Definition fadd : float -> float -> float := SFadd prec emax.

(** [v ** 2] *)
Definition fsquare (v : float) : float := SFmul prec emax v v.

(** [v ** 0.5] *)
Definition froot (v : float) : float := SFsqrt prec emax v.

(** [u > v] is [flt v u]. *)
Definition flt : float -> float -> bool := SFltb.

(** The literals [0.8] and [0.3]: 0x1.999999999999ap-1 and
    0x1.3333333333333p-2. *)
Definition f0_8 : float := S754_finite false 7205759403792794 (-53).
Definition f0_3 : float := S754_finite false 5404319552844595 (-54).

(** ** Spatial-offset analysis: [detect_spatial_pattern] *)

Inductive spatial : Type := sp_shadow | sp_outline | sp_unknown.

Definition is_bright_pos (e : Z * Z * rgba) : bool :=
  let '(_, _, (r, g, b, a)) := e in
  (100 <? a)%Z && (150 <? max3 r g b)%Z.

Definition is_dark_pos (e : Z * Z * rgba) : bool :=
  let '(_, _, (r, g, b, a)) := e in
  (100 <? a)%Z && negb (150 <? max3 r g b)%Z && (max3 r g b <? 100)%Z.

Definition local_pos (e : Z * Z * rgba) : Z * Z := (fst (fst e), snd (fst e)).

Definition bright_positions (im : image) (x y : Z) (w h : nat) : list (Z * Z) :=
  map local_pos (filter is_bright_pos (scan im x y w h)).

Definition dark_positions (im : image) (x y : Z) (w h : nat) : list (Z * Z) :=
  map local_pos (filter is_dark_pos (scan im x y w h)).

(** [sum(l)] *)
Definition sum_Z (l : list Z) : Z := fold_right Z.add 0%Z l.

(** [sum(l) / len(l)]; only used on non-empty lists. *)
Definition avg (l : list Z) : float := int_div (sum_Z l) (List.length l).

(** [offset_magnitude] *)
Definition offset_magnitude (bright dark : list (Z * Z)) : float :=
  let bright_avg_x := avg (map fst bright) in
  let bright_avg_y := avg (map snd bright) in
  let dark_avg_x := avg (map fst dark) in
  let dark_avg_y := avg (map snd dark) in
  let offset_x := fsub bright_avg_x dark_avg_x in
  let offset_y := fsub bright_avg_y dark_avg_y in
  froot (fadd (fsquare offset_x) (fsquare offset_y)).

Definition Qlt_bool (a b : Q) : bool := negb (Qle_bool b a).

Definition detect_spatial_pattern (im : image) (x y : Z) (w h : nat) : spatial :=
  let bright := bright_positions im x y w h in
  let dark := dark_positions im x y w h in
  match bright, dark with
  | [], _ | _, [] => sp_unknown
  | _, _ =>
      if flt f0_8 (offset_magnitude bright dark) then sp_shadow
      else if flt (offset_magnitude bright dark) f0_3 then sp_outline
      else sp_unknown
  end.

(** ** Glyph table: [font_data] *)

(** A glyph entry, or the [default] entry: the keys the program reads. *)
Record glyph_spec : Type := {
  g_x : option Z;
  g_y : option Z;
  g_w : option nat;
  g_h : option nat;
  g_right_bearing : option Z
}.

(** A JSON value of the table: an object, or anything else. *)
Inductive jvalue : Type :=
| JDict (d : glyph_spec)
| JOther.

Definition font_data : Type := list (string * jvalue).

Definition no_keys : glyph_spec :=
  {| g_x := None; g_y := None; g_w := None; g_h := None; g_right_bearing := None |}.

(** [d.get(key)]: the value stored under [key]. *)
Fixpoint get {V : Type} (d : list (string * V)) (key : string) : option V :=
  match d with
  | [] => None
  | (k, v) :: rest => if String.eqb key k then Some v else get rest key
  end.

Definition get_or {V : Type} (o : option V) (dflt : V) : V :=
  match o with Some v => v | None => dflt end.

Definition metadata_keys : list string :=
  ["height"; "origin"; "scale"; "wrap-width"; "dynamic-size"; "border";
   "overlays"; "hooks"; "subfonts"; "notes"; "case-fold"; "null-character";
   "default"; "explicit-origins"; "us-font-aliases"; "soviet-font-aliases"]%string.

Definition is_metadata_key (key : string) : bool :=
  existsb (String.eqb key) metadata_keys.

(** [font_data.get('default', {})]. *)
Definition defaults_of (fd : font_data) : glyph_spec :=
  match get fd "default"%string with
  | Some (JDict d) => d
  | _ => no_keys
  end.

(** The entries with [key not in metadata_keys and isinstance(value, dict)]. *)
Definition glyph_entries (fd : font_data) : list (string * glyph_spec) :=
  flat_map (fun kv =>
    match snd kv with
    | JDict d => if is_metadata_key (fst kv) then [] else [(fst kv, d)]
    | JOther => []
    end) fd.

(** The [widths] list of [analyze_font_pattern]. *)
Definition widths_of (fd : font_data) (default_w : option nat) : list nat :=
  flat_map (fun kd =>
    match g_w (snd kd) with
    | Some w => [w]
    | None => match default_w with Some w => [w] | None => [] end
    end) (glyph_entries fd).

(** The [heights] list of [analyze_font_pattern]. *)
Definition heights_of (fd : font_data) (default_h : nat) : list nat :=
  map (fun kd => get_or (g_h (snd kd)) default_h) (glyph_entries fd).

(** [max(l)] of a non-empty list of naturals. *)
Definition max_list (l : list nat) : nat := fold_right Nat.max 0 l.

(** [len(set(l))]. *)
Definition distinct {A : Type} (eq_dec : forall a b : A, {a = b} + {a <> b})
  (l : list A) : nat := List.length (nodup eq_dec l).

Definition is_monospace_of (fd : font_data) : bool :=
  let default_w := g_w (defaults_of fd) in
  let widths := widths_of fd default_w in
  match default_w with
  | Some _ => true
  | None =>
      match widths with
      | [] => false
      | _ => distinct Nat.eq_dec widths =? 1
      end
  end.

Definition max_width_of (fd : font_data) (height : nat) : nat :=
  let default_w := g_w (defaults_of fd) in
  let widths := widths_of fd default_w in
  match widths with
  | _ :: _ => max_list widths
  | [] =>
      match default_w with
      | Some (S n) => S n     (* [default_w if default_w]: present and non-zero *)
      | _ => height
      end
  end.

Definition max_height_of (fd : font_data) (height : nat) : nat :=
  let heights := heights_of fd (get_or (g_h (defaults_of fd)) height) in
  match heights with
  | _ :: _ => max_list heights
  | [] => height
  end.

(** Sample selection: ['65'], ['97'], ['48'] in this order, else the first
    entry that is a glyph with an [x]. *)
Definition with_x (v : jvalue) : option glyph_spec :=
  match v with
  | JDict d => match g_x d with Some _ => Some d | None => None end
  | JOther => None
  end.

Fixpoint first_sample (fd : font_data) (codes : list string) : option glyph_spec :=
  match codes with
  | [] => None
  | c :: rest =>
      match get fd c with
      | Some v => match with_x v with
                  | Some d => Some d
                  | None => first_sample fd rest
                  end
      | None => first_sample fd rest
      end
  end.

Fixpoint any_sample (entries : font_data) : option glyph_spec :=
  match entries with
  | [] => None
  | (k, v) :: rest =>
      if is_metadata_key k then any_sample rest
      else match with_x v with
           | Some d => Some d
           | None => any_sample rest
           end
  end.

Definition sample_chars : list string := ["65"; "97"; "48"]%string.

Definition char_data_of (fd : font_data) : option glyph_spec :=
  match first_sample fd sample_chars with
  | Some d => Some d
  | None => any_sample fd
  end.

(** The rectangle [(x, y, w, h)] of the sampled glyph. *)
Definition sample_rect (fd : font_data) (height : nat) : option (Z * Z * nat * nat) :=
  match char_data_of fd with
  | None => None
  | Some cd =>
      let dflt := defaults_of fd in
      let x := get_or (g_x cd) 0%Z in
      let y := get_or (g_y cd) (get_or (g_y dflt) 0%Z) in
      let w := match g_w cd with
               | Some w => w
               | None => get_or (g_w dflt) height
               end in
      let h := get_or (g_h cd) (get_or (g_h dflt) height) in
      Some (x, y, w, h)
  end.

(** ** Pattern classification: [analyze_font_pattern] *)

Inductive font_type : Type :=
| monochrome_solid | outlined | shadowed
| chromatic_outlined | chromatic_shadowed | chromatic_shadowed_bright
| chromatic_bright | antialiased | multi_color | unknown.

Inductive channel : Type := chR | chG | chB.

Definition font_type_eq_dec (a b : font_type) : {a = b} + {a <> b}.
Proof. decide equality. Defined.

Definition channel_eqb (a b : channel) : bool :=
  match a, b with
  | chR, chR | chG, chG | chB, chB => true
  | _, _ => false
  end.

(** The dictionary returned by the classifier; a key that a [return] leaves
    out is [None]. *)
Record pattern : Type := {
  type : font_type;
  skip : bool;
  dark_ratio : option Q;
  bright_ratio : option Q;
  white_ratio : option Q;
  black_ratio : option Q;
  remove_shadow : option bool;
  remove_outline : option bool;
  dominant_channel : option channel;
  unique_colors : option nat;
  is_monospace : option bool;
  max_width : option nat;
  max_height : option nat
}.

(** [{'type': t, 'skip': s}] *)
Definition bare (t : font_type) (s : bool) : pattern :=
  {| type := t; skip := s;
     dark_ratio := None; bright_ratio := None; white_ratio := None;
     black_ratio := None; remove_shadow := None; remove_outline := None;
     dominant_channel := None; unique_colors := None;
     is_monospace := None; max_width := None; max_height := None |}.

(** The sampled pixels: those of the scan with [a > 10]. *)
Definition alpha (p : rgba) : Z := snd p.

Definition sampled_pixels (im : image) (x y : Z) (w h : nat) : list rgba :=
  filter (fun p => (10 <? alpha p)%Z) (map snd (scan im x y w h)).

Definition count {A : Type} (f : A -> bool) (l : list A) : nat :=
  List.length (filter f l).

Definition is_white (p : rgba) : bool :=
  let '(r, g, b, a) := p in
  (200 <? r)%Z && (200 <? g)%Z && (200 <? b)%Z && (200 <? a)%Z.

Definition is_black (p : rgba) : bool :=
  let '(r, g, b, a) := p in
  (r <? 50)%Z && (g <? 50)%Z && (b <? 50)%Z && (200 <? a)%Z.

Definition is_gray (p : rgba) : bool :=
  let '(r, g, b, a) := p in
  (50 <=? r)%Z && (r <=? 200)%Z && (50 <=? g)%Z && (g <=? 200)%Z
  && (50 <=? b)%Z && (b <=? 200)%Z
  && (Z.abs (r - g) <? 30)%Z && (Z.abs (g - b) <? 30)%Z && (200 <? a)%Z.

Definition is_semi_transparent (p : rgba) : bool :=
  let '(_, _, _, a) := p in (10 <? a)%Z && (a <? 240)%Z.

Definition is_chromatic (p : rgba) : bool :=
  let '(r, g, b, a) := p in
  (200 <? a)%Z
  && (40 <? Z.max (Z.max (Z.abs (r - g)) (Z.abs (g - b))) (Z.abs (r - b)))%Z.

(** The [dominant_channels] list: one entry per pixel with [a > 200] and a
    non-zero maximum, whatever the pixel's chroma. *)
Definition dominant_of (p : rgba) : list channel :=
  let '(r, g, b, a) := p in
  if (200 <? a)%Z then
    let max_val := max3 r g b in
    if (0 <? max_val)%Z then
      if (r =? max_val)%Z then [chR]
      else if (g =? max_val)%Z then [chG]
      else [chB]
    else []
  else [].

Definition dominant_channels (pixels : list rgba) : list channel :=
  flat_map dominant_of pixels.

(** [Counter]: counts in order of first occurrence. *)
Fixpoint counter_add (c : channel) (cnt : list (channel * nat)) : list (channel * nat) :=
  match cnt with
  | [] => [(c, 1)]
  | (c', n) :: rest =>
      if channel_eqb c c' then (c', S n) :: rest
      else (c', n) :: counter_add c rest
  end.

Definition Counter (l : list channel) : list (channel * nat) :=
  fold_left (fun cnt c => counter_add c cnt) l [].

(** [most_common(1)[0]]: the first entry with the greatest count. *)
Fixpoint most_common (cnt : list (channel * nat)) : option (channel * nat) :=
  match cnt with
  | [] => None
  | (c, n) :: rest =>
      match most_common rest with
      | Some (c', n') => if n <? n' then Some (c', n') else Some (c, n)
      | None => Some (c, n)
      end
  end.

Definition is_bright_opaque (p : rgba) : bool :=
  let '(r, g, b, a) := p in (200 <? a)%Z && (150 <? max3 r g b)%Z.

Definition is_dark_opaque (p : rgba) : bool :=
  let '(r, g, b, a) := p in (200 <? a)%Z && (max3 r g b <=? 150)%Z.

Definition rgb_eq_dec (a b : Z * Z * Z) : {a = b} + {a <> b}.
Proof. repeat decide equality. Defined.

Definition rgb_of (p : rgba) : Z * Z * Z := fst p.

(** [a / b] for counts, as a rational. *)
Definition ratio (a b : nat) : Q := Z.of_nat a # Pos.of_nat b.

(** An integer count as a rational. *)
Definition qnat (n : nat) : Q := Z.of_nat n # 1.

Section Classifier.

Variable im : image.
Variable fd : font_data.
Variable height : nat.

(** The three keys every [return] after the sample loop carries. *)
Definition with_dims (p : pattern) : pattern :=
  {| type := type p; skip := skip p;
     dark_ratio := dark_ratio p; bright_ratio := bright_ratio p;
     white_ratio := white_ratio p; black_ratio := black_ratio p;
     remove_shadow := remove_shadow p; remove_outline := remove_outline p;
     dominant_channel := dominant_channel p; unique_colors := unique_colors p;
     is_monospace := Some (is_monospace_of fd);
     max_width := Some (max_width_of fd height);
     max_height := Some (max_height_of fd height) |}.

Definition ret_chromatic_shadowed (dark total : nat) (ch : channel) : pattern :=
  with_dims
    {| type := chromatic_shadowed; skip := false;
       dark_ratio := Some (ratio dark total); bright_ratio := None;
       white_ratio := None; black_ratio := None;
       remove_shadow := Some true; remove_outline := None;
       dominant_channel := Some ch; unique_colors := None;
       is_monospace := None; max_width := None; max_height := None |}.

Definition ret_chromatic_outlined (bright dark total : nat) (ch : channel) : pattern :=
  with_dims
    {| type := chromatic_outlined; skip := false;
       dark_ratio := Some (ratio dark total);
       bright_ratio := Some (ratio bright total);
       white_ratio := None; black_ratio := None;
       remove_shadow := None; remove_outline := Some true;
       dominant_channel := Some ch; unique_colors := None;
       is_monospace := None; max_width := None; max_height := None |}.

Definition ret_multi_color (colors : nat) : pattern :=
  with_dims
    {| type := multi_color; skip := true;
       dark_ratio := None; bright_ratio := None;
       white_ratio := None; black_ratio := None;
       remove_shadow := None; remove_outline := None;
       dominant_channel := None; unique_colors := Some colors;
       is_monospace := None; max_width := None; max_height := None |}.

Definition ret_outlined (white black total : nat) : pattern :=
  with_dims
    {| type := outlined; skip := false;
       dark_ratio := None; bright_ratio := None;
       white_ratio := Some (ratio white total);
       black_ratio := Some (ratio black total);
       remove_shadow := None; remove_outline := Some true;
       dominant_channel := None; unique_colors := None;
       is_monospace := None; max_width := None; max_height := None |}.

Definition ret_shadowed (black total : nat) : pattern :=
  with_dims
    {| type := shadowed; skip := false;
       dark_ratio := None; bright_ratio := None;
       white_ratio := None; black_ratio := Some (ratio black total);
       remove_shadow := Some true; remove_outline := None;
       dominant_channel := None; unique_colors := None;
       is_monospace := None; max_width := None; max_height := None |}.

(** The single-hue branch, entered once the dominance test has passed:
    [Some] pattern when it returns, [None] when it falls through to the
    multi-colour return. *)
Definition single_hue (pixels : list rgba) (x y : Z) (w h : nat) (ch : channel)
  : option pattern :=
  let total := List.length pixels in
  let bright_pixels := count is_bright_opaque pixels in
  let dark_pixels := count is_dark_opaque pixels in
  if (0 <? bright_pixels) && (0 <? dark_pixels) then
    match detect_spatial_pattern im x y w h with
    | sp_shadow => Some (ret_chromatic_shadowed dark_pixels total ch)
    | sp_outline => Some (ret_chromatic_outlined bright_pixels dark_pixels total ch)
    | sp_unknown =>
        if Qlt_bool (ratio dark_pixels total) (3 # 10)
        then Some (ret_chromatic_shadowed dark_pixels total ch)
        else Some (ret_chromatic_outlined bright_pixels dark_pixels total ch)
    end
  else None.

(** The body of [if chromatic_pixels > total * 0.1:]. *)
Definition chromatic_branch (pixels : list rgba) (x y : Z) (w h : nat) : pattern :=
  let colors := distinct rgb_eq_dec (map rgb_of pixels) in
  let doms := dominant_channels pixels in
  match most_common (Counter doms) with
  | Some (most_common_channel, cnt) =>
      if Qlt_bool (8 # 10) (ratio cnt (List.length doms)) then
        match single_hue pixels x y w h most_common_channel with
        | Some p => p
        | None => ret_multi_color colors
        end
      else ret_multi_color colors
  | None => ret_multi_color colors
  end.

(** The rules after the chromatic one. *)
Definition achromatic_rules (pixels : list rgba) : pattern :=
  let total := List.length pixels in
  let colors := distinct rgb_eq_dec (map rgb_of pixels) in
  let white_pixels := count is_white pixels in
  let black_pixels := count is_black pixels in
  let gray_pixels := count is_gray pixels in
  let semi_transparent := count is_semi_transparent pixels in
  if (0 <? white_pixels) && (0 <? black_pixels)
     && Qlt_bool (2 # 10) (ratio white_pixels total)
     && Qlt_bool (2 # 10) (ratio black_pixels total)
  then ret_outlined white_pixels black_pixels total
  else if (0 <? black_pixels) && (2 <=? colors)
          && Qlt_bool (ratio black_pixels total) (3 # 10)
  then ret_shadowed black_pixels total
  else if (0 <? semi_transparent)
          || Qlt_bool (qnat total * (2 # 10)) (qnat gray_pixels)
  then with_dims (bare antialiased false)
  else if colors =? 1
  then with_dims (bare monochrome_solid false)
  else with_dims (bare unknown false).

Definition classify_sample (x y : Z) (w h : nat) : pattern :=
  let pixels := sampled_pixels im x y w h in
  match pixels with
  | [] => bare unknown false
  | _ :: _ =>
      let total := List.length pixels in
      let chromatic_pixels := count is_chromatic pixels in
      if Qlt_bool (qnat total * (1 # 10)) (qnat chromatic_pixels)
      then chromatic_branch pixels x y w h
      else achromatic_rules pixels
  end.

Definition analyze_font_pattern : pattern :=
  match sample_rect fd height with
  | None => with_dims (bare unknown false)
  | Some (x, y, w, h) => classify_sample x y w h
  end.

End Classifier.

(** ** Glyph extraction: [extract_glyph_pixels] *)

(** Truth value of [pattern.get(flag)]. *)
Definition flag_set (o : option bool) : bool := get_or o false.

Definition near_black (r g b : Z) : bool :=
  (r <? 50)%Z && (g <? 50)%Z && (b <? 50)%Z.

Definition all_white (r g b : Z) : bool :=
  (200 <? r)%Z && (200 <? g)%Z && (200 <? b)%Z.

(** The value of [is_inked] for a pixel that was read. *)
Definition is_inked (threshold : Z) (pat : option pattern) (p : rgba) : bool :=
  let '(r, g, b, a) := p in
  match pat with
  | Some pt =>
      if flag_set (remove_outline pt) then
        if (threshold <? a)%Z then
          if font_type_eq_dec (type pt) chromatic_outlined
          then (150 <? max3 r g b)%Z
          else if all_white r g b then true
          else if near_black r g b then false
          else true
        else false
      else if flag_set (remove_shadow pt) then
        if (threshold <? a)%Z then
          if font_type_eq_dec (type pt) chromatic_shadowed_bright
          then (150 <? max3 r g b)%Z
          else if font_type_eq_dec (type pt) chromatic_shadowed then
            if Qle_bool (4 # 10) (get_or (dark_ratio pt) 0%Q)
            then (max3 r g b <? 100)%Z
            else (150 <? max3 r g b)%Z
          else negb (near_black r g b)
        else false
      else if font_type_eq_dec (type pt) chromatic_bright then
        if (threshold <? a)%Z
        then negb (180 <? max3 r g b)%Z
        else false
      else (threshold <? a)%Z
  | None => (threshold <? a)%Z
  end.

(** The character appended to [row] for column [px] of row [py]. *)
Definition cell (im : image) (x y : Z) (threshold : Z) (pat : option pattern)
  (py px : nat) : string :=
  match getpixel im (x + px) (y + py) with
  | Some p => if is_inked threshold pat p then "@"%string else "."%string
  | None => "."%string
  end.

(** [range(n)] for a natural [n]. *)
Definition range0 (n : nat) : list nat := seq 0 n.

Definition extract_row (im : image) (x y : Z) (width : nat) (threshold : Z)
  (pat : option pattern) (py : nat) : string :=
  fold_left (fun row px => (row ++ cell im x y threshold pat py px)%string)
            (range0 width) ""%string.

Definition extract_glyph_pixels (im : image) (x y : Z) (width height : nat)
  (threshold : Z) (pat : option pattern) : list string :=
  if (width =? 0) || (height =? 0) then ["-"%string]
  else map (extract_row im x y width threshold pat) (range0 height).

(** The default [threshold=128]. *)
Definition default_threshold : Z := 128%Z.

(** ** Overrides and the skip decision: [generate_yaff] *)

Definition FONT_TYPE_OVERRIDES : list (string * font_type) :=
  [("sttngafu", chromatic_shadowed_bright);
   ("mw", antialiased);
   ("nesticle", shadowed);
   ("ft2", chromatic_shadowed);
   ("estsk", chromatic_bright);
   ("goldeneye007", antialiased);
   ("wof-red", chromatic_bright);
   ("quake", shadowed);
   ("psh", chromatic_shadowed_bright);
   ("scnes", chromatic_shadowed_bright);
   ("wof", chromatic_bright);
   ("ff8", chromatic_shadowed_bright);
   ("fft", antialiased);
   ("karnovr", chromatic_bright);
   ("pokesnap", chromatic_shadowed_bright);
   ("rr", chromatic_bright);
   ("smrpg", chromatic_outlined);
   ("swatkats", chromatic_outlined);
   ("smurfs3", antialiased);
   ("sth2i", antialiased);
   ("wea", chromatic_bright)]%string.

Definition set_type (t : font_type) (p : pattern) : pattern :=
  {| type := t; skip := skip p;
     dark_ratio := dark_ratio p; bright_ratio := bright_ratio p;
     white_ratio := white_ratio p; black_ratio := black_ratio p;
     remove_shadow := remove_shadow p; remove_outline := remove_outline p;
     dominant_channel := dominant_channel p; unique_colors := unique_colors p;
     is_monospace := is_monospace p;
     max_width := max_width p; max_height := max_height p |}.

(** [pattern['remove_shadow'] = s; pattern['remove_outline'] = o]. *)
Definition set_flags (s o : bool) (p : pattern) : pattern :=
  {| type := type p; skip := skip p;
     dark_ratio := dark_ratio p; bright_ratio := bright_ratio p;
     white_ratio := white_ratio p; black_ratio := black_ratio p;
     remove_shadow := Some s; remove_outline := Some o;
     dominant_channel := dominant_channel p; unique_colors := unique_colors p;
     is_monospace := is_monospace p;
     max_width := max_width p; max_height := max_height p |}.

(** The override of the main font, for a key found in the table. *)
Definition force_main (override_type : font_type) (p : pattern) : pattern :=
  let p := set_type override_type p in
  match override_type with
  | antialiased | unknown | chromatic_bright => set_flags false false p
  | shadowed | chromatic_shadowed | chromatic_shadowed_bright => set_flags true false p
  | outlined | chromatic_outlined => set_flags false true p
  | monochrome_solid | multi_color => p
  end.

(** The override of a subfont, for a key found in the table. *)
Definition force_subfont (override_type : font_type) (p : pattern) : pattern :=
  let p := set_type override_type p in
  match override_type with
  | antialiased | unknown => set_flags false false p
  | _ => p
  end.

Definition apply_main_override (game_name : string) (p : pattern) : pattern :=
  match get FONT_TYPE_OVERRIDES game_name with
  | Some t => force_main t p
  | None => p
  end.

(** [f"{game_name}-{subfont_name}"] *)
Definition subfont_key (game_name subfont_name : string) : string :=
  (game_name ++ "-" ++ subfont_name)%string.

Definition apply_subfont_override (game_name subfont_name : string) (p : pattern)
  : pattern :=
  match get FONT_TYPE_OVERRIDES (subfont_key game_name subfont_name) with
  | Some t => force_subfont t p
  | None => p
  end.

(** ** Codepoints and number formatting *)

Definition CP1252_TO_UNICODE : list (Z * Z) :=
  [(145, 8216); (146, 8217)]%Z.

Fixpoint lookupZ (d : list (Z * Z)) (key : Z) : option Z :=
  match d with
  | [] => None
  | (k, v) :: rest => if (key =? k)%Z then Some v else lookupZ rest key
  end.

Definition get_unicode_codepoint (decimal_code : Z) : Z :=
  match lookupZ CP1252_TO_UNICODE decimal_code with
  | Some u => u
  | None => decimal_code
  end.

(** [int(key)] on the keys of a glyph table: a run of decimal digits with
    an optional sign; [None] stands for [ValueError].  The blanks and
    underscores [int] also tolerates are read as errors. *)
Definition int_of_key (key : string) : option Z :=
  match key with
  | String "+" rest =>
      option_map (fun u => Z.of_N (N.of_uint u)) (DecimalString.NilZero.uint_of_string rest)
  | _ => option_map Z.of_int (DecimalString.NilZero.int_of_string key)
  end.

(** [str(n)] *)
Definition str_nat (n : nat) : string :=
  DecimalString.NilZero.string_of_uint (Nat.to_uint n).

Definition str_Z (z : Z) : string :=
  DecimalString.NilZero.string_of_int (Z.to_int z).

Fixpoint zfill_aux (missing : nat) (s : string) : string :=
  match missing with
  | O => s
  | S k => String "0" (zfill_aux k s)
  end.

(** Left padding with zeros up to [width] characters. *)
Definition zfill (width : nat) (s : string) : string :=
  zfill_aux (width - String.length s) s.

Definition hex_digits (n : N) : string :=
  HexadecimalString.NilZero.string_of_uint (N.to_hex_uint n).

(** [f"{z:04x}"]: the sign counts in the width. *)
Definition format_04x (z : Z) : string :=
  if (z <? 0)%Z then String "-" (zfill 3 (hex_digits (Z.abs_N z)))
  else zfill 4 (hex_digits (Z.abs_N z)).

Definition upper_hex_char (c : ascii) : ascii :=
  let n := nat_of_ascii c in
  if (97 <=? n) && (n <=? 102) then ascii_of_nat (n - 32) else c.

Fixpoint map_string (f : ascii -> ascii) (s : string) : string :=
  match s with
  | EmptyString => EmptyString
  | String c rest => String (f c) (map_string f rest)
  end.

(** [f"{z:04X}"] *)
Definition format_04X (z : Z) : string := map_string upper_hex_char (format_04x z).

(** ** Section emitter: [generate_font_section] *)

(** The [chars] list before sorting. *)
Definition chars_of (fd : font_data) : list (Z * glyph_spec) :=
  flat_map (fun kd =>
    match g_x (snd kd) with
    | Some _ =>
        match int_of_key (fst kd) with
        | Some decimal_code => [(decimal_code, snd kd)]
        | None => []
        end
    | None => []
    end) (glyph_entries fd).

(** [chars.sort(key=lambda x: x[0])]: a stable sort on the code. *)
Fixpoint insert_char (e : Z * glyph_spec) (l : list (Z * glyph_spec))
  : list (Z * glyph_spec) :=
  match l with
  | [] => [e]
  | h :: t => if (fst e <=? fst h)%Z then e :: l else h :: insert_char e t
  end.

Definition sort_chars (l : list (Z * glyph_spec)) : list (Z * glyph_spec) :=
  fold_right insert_char [] l.

Definition character_label (unicode_code : Z) : string :=
  if (32 <=? unicode_code)%Z && (unicode_code <=? 126)%Z
  then String (ascii_of_N (Z.to_N unicode_code)) EmptyString
  else ("U+" ++ format_04X unicode_code)%string.

Definition indent (s : string) : string := ("    " ++ s)%string.

(** The resolved rectangle of a glyph entry. *)
Definition resolve (dflt : glyph_spec) (height : nat) (char_data : glyph_spec)
  : Z * Z * nat * nat :=
  let x := get_or (g_x char_data) 0%Z in
  let y := get_or (g_y char_data) (get_or (g_y dflt) 0%Z) in
  let w := match g_w char_data with
           | Some w => w
           | None => match g_w dflt with Some w => w | None => height end
           end in
  let h := get_or (g_h char_data) (get_or (g_h dflt) height) in
  (x, y, w, h).

(** One turn of the glyph loop: the lines appended for one character. *)
Definition emit_glyph (im : image) (dflt : glyph_spec) (height : nat)
  (pat : option pattern) (c : Z * glyph_spec) : list string :=
  let '(decimal_code, char_data) := c in
  let '(x, y, w, h) := resolve dflt height char_data in
  let unicode_code := get_unicode_codepoint decimal_code in
  let shift_up := if h <? height then Some (height - h) else None in
  ["# Character: " ++ character_label unicode_code;
   "u+" ++ format_04x unicode_code ++ ":"]%string
  ++ map indent (extract_glyph_pixels im x y w h default_threshold pat)
  ++ match shift_up with
     | Some s => [""; indent ("shift-up: " ++ str_nat s)]%string
     | None => []
     end
  ++ match g_right_bearing char_data with
     | Some rb =>
         match shift_up with
         | Some _ => [indent ("right-bearing: " ++ str_Z rb)]%string
         | None => [""; indent ("right-bearing: " ++ str_Z rb)]%string
         end
     | None => []
     end
  ++ [""%string].

Definition generate_font_section (im : image) (fd : font_data) (height : nat)
  (pat : option pattern) : list string * nat :=
  let chars := sort_chars (chars_of fd) in
  (flat_map (emit_glyph im (defaults_of fd) height pat) chars, List.length chars).

(** ** Documents: [write_single_yaff] and [generate_yaff] *)

Definition type_name (t : font_type) : string :=
  match t with
  | monochrome_solid => "monochrome_solid"
  | outlined => "outlined"
  | shadowed => "shadowed"
  | chromatic_outlined => "chromatic_outlined"
  | chromatic_shadowed => "chromatic_shadowed"
  | chromatic_shadowed_bright => "chromatic_shadowed_bright"
  | chromatic_bright => "chromatic_bright"
  | antialiased => "antialiased"
  | multi_color => "multi_color"
  | unknown => "unknown"
  end%string.

(** An entry of the metadata table read from [generators.js]. *)
Record game_meta : Type := {
  title : option string;
  year : option nat;
  source : option string;
  platform : option string
}.

Definition no_meta : game_meta :=
  {| title := None; year := None; source := None; platform := None |}.

Definition meta_present (m : game_meta) : bool :=
  match title m, year m, source m, platform m with
  | None, None, None, None => false
  | _, _, _, _ => true
  end.

Definition opt_line {A : Type} (o : option A) (f : A -> string) : list string :=
  match o with Some a => [f a] | None => [] end.

(** What one call of [write_single_yaff] puts in one file. *)
Record document : Type := {
  doc_family : string;
  doc_monospace : bool;
  doc_max_width : nat;
  doc_max_height : nat;
  doc_pattern : pattern;
  doc_lines : list string;
  doc_chars : nat
}.

Section Emitter.

Variable im : image.
Variable game_metadata_db : list (string * game_meta).
Variable json_filename png_filename : string.
(** [str.title], not modelled. *)
Variable title_case : string -> string.

(** The lines of [write_single_yaff] that precede the glyph definitions. *)
Definition yaff_header (font_name family_name : string) (height : nat)
  (pat : pattern) (game_id : string) : list string :=
  let game_metadata :=
    if String.eqb game_id "" then no_meta
    else get_or (get game_metadata_db game_id) no_meta in
  let game_title := get_or (title game_metadata) font_name in
  ["# YAFF font file";
   "# Converted from " ++ json_filename ++ " and " ++ png_filename]%string
  ++ (if meta_present game_metadata then
        ["# Source game: " ++ game_title]%string
        ++ opt_line (year game_metadata) (fun y => "# Year: " ++ str_nat y)%string
        ++ opt_line (source game_metadata) (fun s => "# Publisher: " ++ s)%string
        ++ opt_line (platform game_metadata) (fun s => "# Platform: " ++ s)%string
      else [])
  ++ ["# Font type: " ++ type_name (type pat); "";
      "yaff: 1.0";
      "name: " ++ game_title;
      "family: " ++ family_name;
      "encoding: unicode"]%string
  ++ match source game_metadata with
     | Some (String c s) => ["copyright: " ++ String c s]%string
     | _ => []
     end
  ++ [""; "# Global metrics"]%string
  ++ (if height =? 0 then [] else ["pixel-size: " ++ str_nat height]%string)
  ++ [""; "# Glyph definitions"; ""]%string.

Definition write_single_yaff (fd : font_data) (font_name family_name : string)
  (height : nat) (pat : pattern) (game_id : string) : list string * nat :=
  let glyphs := generate_font_section im fd height (Some pat) in
  (yaff_header font_name family_name height pat game_id ++ fst glyphs,
   snd glyphs).

(** The three values read back from the pattern before naming the file. *)
Definition reported_monospace (p : pattern) : bool := get_or (is_monospace p) false.
Definition reported_max_width (p : pattern) (height : nat) : nat :=
  get_or (max_width p) height.
Definition reported_max_height (p : pattern) (height : nat) : nat :=
  get_or (max_height p) height.

Definition emit (fd : font_data) (font_name family_name : string) (height : nat)
  (pat : pattern) (game_name : string) : document :=
  let out := write_single_yaff fd font_name family_name height pat game_name in
  {| doc_family := family_name;
     doc_monospace := reported_monospace pat;
     doc_max_width := reported_max_width pat height;
     doc_max_height := reported_max_height pat height;
     doc_pattern := pat;
     doc_lines := fst out;
     doc_chars := snd out |}.

(** The pattern in effect for the main font when the skip test is made. *)
Definition main_pattern (fd : font_data) (height : nat) (game_name : string) : pattern :=
  apply_main_override game_name (analyze_font_pattern im fd height).

(** The pattern in effect for a subfont when its skip test is made. *)
Definition subfont_pattern (subfont_data : font_data) (subfont_height : nat)
  (game_name subfont_name : string) : pattern :=
  apply_subfont_override game_name subfont_name
    (analyze_font_pattern im subfont_data subfont_height).

(** A subfont: its name, its own [height] when it has one, its table. *)
Definition subfont : Type := (string * (option nat * font_data))%type.

Definition generate_subfont (height : nat) (game_name base_font_name : string)
  (sf : subfont) : list document :=
  let '(subfont_name, (own_height, subfont_data)) := sf in
  let subfont_height := get_or own_height height in
  let pat := subfont_pattern subfont_data subfont_height game_name subfont_name in
  if skip pat then []
  else [emit subfont_data
             (base_font_name ++ " " ++ title_case subfont_name)%string
             (subfont_key game_name subfont_name)
             subfont_height pat game_name].

(** The documents written by [generate_yaff], in the order they are
    written; [height] is [font_data.get('height', 13)] and [subfonts] is
    [font_data.get('subfonts', {})], both read by the caller. *)
Definition generate_yaff (fd : font_data) (subfonts : list subfont) (height : nat)
  (game_name base_font_name : string) : list document :=
  let pat := main_pattern fd height game_name in
  if skip pat then []
  else emit fd (base_font_name ++ " Font")%string game_name height pat game_name
       :: flat_map (generate_subfont height game_name base_font_name) subfonts.

End Emitter.

(** ** Character coverage: [analyze_character_coverage] *)

(** The set of codepoints of the table; only counts and membership are
    read from it, so a duplicate-free list stands for the set. *)
Definition coverage_codes (fd : font_data) : list Z :=
  flat_map (fun kd =>
    match int_of_key (fst kd) with
    | Some decimal_code => [get_unicode_codepoint decimal_code]
    | None => []
    end) (glyph_entries fd).

Definition codepoints_of (fd : font_data) : list Z :=
  nodup Z.eq_dec (coverage_codes fd).

(** [lo <= cp <= hi] *)
Definition in_span (lo hi cp : Z) : bool := (lo <=? cp)%Z && (cp <=? hi)%Z.

Definition is_symbol (cp : Z) : bool :=
  in_span 0x2190 0x21FF cp || in_span 0x2200 0x22FF cp
  || in_span 0x2300 0x23FF cp || in_span 0x25A0 0x25FF cp.

(** A label when its test holds. *)
Definition label_if (test : bool) (label : string) : list string :=
  if test then [label] else [].

Definition coverage_labels (codepoints : list Z) : list string :=
  let has_uppercase := existsb (in_span 0x41 0x5A) codepoints in
  let has_lowercase := existsb (in_span 0x61 0x7A) codepoints in
  let ascii_count := count (in_span 0x20 0x7E) codepoints in
  let latin1_extended_count := count (in_span 0xA0 0xFF) codepoints in
  let latin_extended_count := count (in_span 0x0100 0x024F) codepoints in
  let cyrillic_count := count (in_span 0x0400 0x04FF) codepoints in
  let greek_count := count (in_span 0x0370 0x03FF) codepoints in
  let hiragana_count := count (in_span 0x3040 0x309F) codepoints in
  let katakana_count := count (in_span 0x30A0 0x30FF) codepoints in
  let kana_count := hiragana_count + katakana_count in
  let bopomofo_count := count (in_span 0x3100 0x312F) codepoints in
  let boxdraw_count := count (in_span 0x2500 0x257F) codepoints in
  let symbols_count := count is_symbol codepoints in
  label_if (90 <=? ascii_count) "ascii"
  ++ label_if (20 <=? latin1_extended_count) "latin1"
  ++ label_if (20 <=? latin_extended_count) "latinext"
  ++ label_if (10 <=? cyrillic_count) "cyrillic"
  ++ label_if (5 <=? greek_count) "greek"
  ++ label_if (10 <=? kana_count) "kana"
  ++ label_if (10 <=? bopomofo_count) "bopomofo"
  ++ label_if (20 <=? boxdraw_count) "boxdraw"
  ++ label_if (10 <=? symbols_count) "symbols"
  ++ label_if (has_uppercase && negb has_lowercase) "upper".

Definition analyze_character_coverage (fd : font_data) : list string :=
  match codepoints_of fd with
  | [] => []
  | codepoints => coverage_labels codepoints
  end.

(** ** File names of [generate_yaff] *)

(** [sep.join(l)] *)
Fixpoint join (sep : string) (l : list string) : string :=
  match l with
  | [] => EmptyString
  | [s] => s
  | s :: rest => (s ++ sep ++ join sep rest)%string
  end.

Definition label_suffix (fd : font_data) : string :=
  match analyze_character_coverage fd with
  | [] => EmptyString
  | labels => ("_" ++ join "_" labels)%string
  end.

(** [_HxW] for a monospace font, [_H] otherwise. *)
Definition dim_suffix (p : pattern) (height : nat) : string :=
  if get_or (is_monospace p) false
  then ("_" ++ str_nat (get_or (max_height p) height)
            ++ "x" ++ str_nat (get_or (max_width p) height))%string
  else ("_" ++ str_nat (get_or (max_height p) height))%string.

(** The base name of the file a (sub)font is written to; [key] is the game
    name, or the game name and the subfont name joined by a dash. *)
Definition output_name (key : string) (fd : font_data) (p : pattern) (height : nat)
  : string :=
  (key ++ label_suffix fd ++ dim_suffix p height ++ ".yaff")%string.

(** ** Reference notions used in the statements *)

(** The resolved width of every glyph entry, with the square fallback of
    [resolve]. *)
Definition resolved_widths (fd : font_data) (height : nat) : list nat :=
  map (fun kd => snd (fst (resolve (defaults_of fd) height (snd kd)))) (glyph_entries fd).

Definition resolved_heights (fd : font_data) (height : nat) : list nat :=
  map (fun kd => snd (resolve (defaults_of fd) height (snd kd))) (glyph_entries fd).

(** Dominant channels taken over the chromatic pixels only, as the
    specification words the dominance test. *)
Definition chromatic_dominant_channels (pixels : list rgba) : list channel :=
  dominant_channels (filter is_chromatic pixels).

Definition channel_eq_dec (a b : channel) : {a = b} + {a <> b}.
Proof. decide equality. Defined.

(** Number of occurrences of a channel. *)
Definition occurrences (l : list channel) (c : channel) : nat :=
  count_occ channel_eq_dec l c.

(** Two patterns that agree on every key but the three dimension keys. *)
Definition same_but_dims (p q : pattern) : Prop :=
  type p = type q /\ skip p = skip q
  /\ dark_ratio p = dark_ratio q /\ bright_ratio p = bright_ratio q
  /\ white_ratio p = white_ratio q /\ black_ratio p = black_ratio q
  /\ remove_shadow p = remove_shadow q /\ remove_outline p = remove_outline q
  /\ dominant_channel p = dominant_channel q
  /\ unique_colors p = unique_colors q.

(** The patterns handed to the extractor: the classifier's result, after
    the override step of the main font or of a subfont. *)
Inductive in_effect : pattern -> Prop :=
| in_effect_main : forall im fd height game_name,
    in_effect (main_pattern im fd height game_name)
| in_effect_subfont : forall im fd height game_name subfont_name,
    in_effect (subfont_pattern im fd height game_name subfont_name).

(** The characters of a row. *)
Definition row_chars (s : string) : list ascii := list_ascii_of_string s.

(** The character a cell stands for. *)
Definition cell_char (im : image) (x y : Z) (threshold : Z) (pat : option pattern)
  (py px : nat) : ascii :=
  match getpixel im (x + px) (y + py) with
  | Some p => if is_inked threshold pat p then "@"%char else "."%char
  | None => "."%char
  end.

(** Reading back the digits of a codepoint tag. *)
Definition read_04x (digits : string) : option Z :=
  option_map (fun u => Z.of_N (N.of_hex_uint u))
             (HexadecimalString.NilZero.uint_of_string digits).

(** The codepoint a source code is announced under: the identity, but for
    the two quotation marks of the Windows code page. *)
Definition expected_codepoint (decimal_code : Z) : Z :=
  if (decimal_code =? 145)%Z then 8216%Z
  else if (decimal_code =? 146)%Z then 8217%Z
  else decimal_code.

(** Ascending order on the source codes. *)
Definition code_le (a b : Z * glyph_spec) : Prop := (fst a <= fst b)%Z.

(** A pattern never asks for both removals. *)
Definition one_removal (p : pattern) : Prop :=
  flag_set (remove_shadow p) = true -> flag_set (remove_outline p) = false.

(** The pixels that contribute an entry to [dominant_channels]. *)
Definition has_dominant (p : rgba) : bool :=
  let '(r, g, b, a) := p in (200 <? a)%Z && (0 <? max3 r g b)%Z.

(** One channel is strictly more than 80% of the list: the test of the
    program. *)
Definition strictly_dominated (l : list channel) : Prop :=
  exists ch, (8 # 10 < ratio (occurrences l ch) (List.length l))%Q.

(** One channel is at least 80% of the list: the test as the specification
    words it. *)
Definition spec_dominated (l : list channel) : Prop :=
  exists ch, (8 # 10 <= ratio (occurrences l ch) (List.length l))%Q.

(** Both a bright and a dark opaque pixel exist. *)
Definition split_nondegenerate (pixels : list rgba) : Prop :=
  0 < count is_bright_opaque pixels /\ 0 < count is_dark_opaque pixels.

(** First-match lookup in a counter, 0 for a missing key. *)
Fixpoint counted (cnt : list (channel * nat)) (c : channel) : nat :=
  match cnt with
  | [] => 0
  | (c', n) :: rest => if channel_eqb c c' then n else counted rest c
  end.





(** A position within the bounds of the image. *)
Definition inside (im : image) (px py : Z) : bool :=
  (0 <=? px)%Z && (px <? fst (size im))%Z
  && (0 <=? py)%Z && (py <? snd (size im))%Z.

(** The ends of the two loops of a scan: the rectangle cut at the right and
    bottom edges of the sheet. *)
Definition clip (im : image) (x y : Z) (w h : nat) : Z * Z :=
  (Z.min (x + w) (fst (size im)), Z.min (y + h) (snd (size im))).




(** The removal flags a type goes with in the classifier's result. *)
Definition flags_match_type (p : pattern) : Prop :=
  match type p with
  | shadowed | chromatic_shadowed =>
      remove_shadow p = Some true /\ remove_outline p = None
  | outlined | chromatic_outlined =>
      remove_shadow p = None /\ remove_outline p = Some true
  | chromatic_bright | chromatic_shadowed_bright => False
  | antialiased | monochrome_solid | unknown | multi_color =>
      remove_shadow p = None /\ remove_outline p = None
  end.

(** A recorded ratio, when present, is a fraction. *)
Definition is_fraction (o : option Q) : Prop :=
  match o with
  | Some q => (0 <= q /\ q <= 1)%Q
  | None => True
  end.

(** The ink predicate that goes with a type: opaque, and the colour test
    of the type; [recorded] is the stored [dark_ratio], 0 when absent. *)
Definition ink_table (t : font_type) (recorded : Q) (threshold : Z) (p : rgba) : bool :=
  let '(r, g, b, a) := p in
  (threshold <? a)%Z
  && match t with
     | outlined | shadowed => negb (near_black r g b)
     | chromatic_outlined | chromatic_shadowed_bright => (150 <? max3 r g b)%Z
     | chromatic_shadowed =>
         if Qle_bool (4 # 10) recorded
         then (max3 r g b <? 100)%Z
         else (150 <? max3 r g b)%Z
     | chromatic_bright => negb (180 <? max3 r g b)%Z
     | antialiased | monochrome_solid | unknown | multi_color => true
     end.

(** The types whose extraction removes a shadow, an outline. *)
Definition wants_shadow (t : font_type) : bool :=
  match t with
  | shadowed | chromatic_shadowed | chromatic_shadowed_bright => true
  | _ => false
  end.

Definition wants_outline (t : font_type) : bool :=
  match t with
  | outlined | chromatic_outlined => true
  | _ => false
  end.

(** Whether the classifier asks to skip a subfont, under the height the
    subfont is analysed with. *)
Definition subfont_skipped (im : image) (height : nat) (sf : subfont) : bool :=
  skip (analyze_font_pattern im (snd (snd sf)) (get_or (fst (snd sf)) height)).

(** The type announced for a font: the forced one when the key has an
    override entry, the classified one otherwise. *)
Definition type_in_effect (key : string) (classified : font_type) : font_type :=
  get_or (get FONT_TYPE_OVERRIDES key) classified.

(** The order in which coverage labels are appended. *)
Definition COVERAGE_ORDER : list string :=
  ["ascii"; "latin1"; "latinext"; "cyrillic"; "greek"; "kana"; "bopomofo";
   "boxdraw"; "symbols"; "upper"]%string.

(** A decimal digit; a string of decimal digits. *)
Definition is_digit (c : ascii) : bool :=
  (48 <=? nat_of_ascii c) && (nat_of_ascii c <=? 57).

Definition all_digits (s : string) : Prop :=
  Forall (fun c => is_digit c = true) (row_chars s).

(** ** Sample inputs *)

Definition opaque (r g b : Z) : rgba := (r, g, b, 255%Z).
Definition transparent : rgba := (0, 0, 0, 0)%Z.

(** 10x10: dark red in columns 0-4, nothing in column 5, bright red in
    columns 6-9. *)
Definition shadow_sheet : image :=
  sheet 10 10 (fun px _ =>
    if px <? 5 then opaque 90 0 0
    else if 6 <=? px then opaque 255 0 0
    else transparent).


(** 5x1: three bright reds, one dark red, one green. *)
Definition hue_sheet : image :=
  sheet 5 1 (fun px _ =>
    match px with
    | 0 | 1 | 2 => opaque 255 0 0
    | 3 => opaque 100 0 0
    | _ => opaque 0 255 0
    end).

(** 11x1: nine whites, one dark green, one blue. *)
Definition mix_sheet : image :=
  sheet 11 1 (fun px _ =>
    if px <? 9 then opaque 255 255 255
    else if px =? 9 then opaque 0 120 0
    else opaque 0 0 255).

(** 10x1: eight grays followed by two blacks. *)
Definition gray_sheet : image :=
  sheet 10 1 (fun px _ => if px <? 8 then opaque 128 128 128 else opaque 0 0 0).

(** 4x1, gray all over. *)
Definition plain_sheet : image := sheet 4 1 (fun _ _ => opaque 128 128 128).

(** 4x4, fully transparent. *)
Definition blank_sheet : image := sheet 4 4 (fun _ _ => transparent).



(** 2x1, opaque black. *)
Definition edge_sheet : image := sheet 2 1 (fun _ _ => opaque 0 0 0).

Definition glyph_at (x y : Z) (w h : nat) : jvalue :=
  JDict {| g_x := Some x; g_y := Some y; g_w := Some w; g_h := Some h;
           g_right_bearing := None |}.

(** A glyph without a width of its own. *)
Definition glyph_no_width (x y : Z) (h : nat) : jvalue :=
  JDict {| g_x := Some x; g_y := Some y; g_w := None; g_h := Some h;
           g_right_bearing := None |}.

(** A one-glyph table: the letter A at the origin. *)
Definition font_A (w h : nat) : font_data := [("65"%string, glyph_at 0 0 w h)].

(** The letters A and B, of widths 5 and 3. *)
Definition font_AB : font_data :=
  [("65"%string, glyph_at 0 0 5 1); ("66"%string, glyph_at 0 0 3 1)].

(** The letter A of width 5 and a B that leaves its width out; there is no
    [default] entry. *)
Definition font_A_Bsquare : font_data :=
  [("65"%string, glyph_at 0 0 5 1); ("66"%string, glyph_no_width 0 0 1)].

(** Codes out of order, with the two remapped quotes. *)
Definition font_quotes : font_data :=
  [("146"%string, glyph_at 0 0 1 1); ("65"%string, glyph_at 0 0 1 1);
   ("height"%string, JOther); ("145"%string, glyph_at 0 0 1 1)].

(** Five Greek letters, U+0370 to U+0374. *)
Definition font_greek : font_data :=
  [("880"%string, glyph_at 0 0 1 1); ("881"%string, glyph_at 1 0 1 1);
   ("882"%string, glyph_at 2 0 1 1); ("883"%string, glyph_at 3 0 1 1);
   ("884"%string, glyph_at 4 0 1 1)].

(** Membership in a list of conditional labels, by the label's test. *)
Ltac pick_label E :=
  repeat first [ apply in_or_app; left; rewrite E; now left
               | apply in_or_app; right ].

(** ** Proof automation *)

(** A label that none of the conditional labels can be. *)
Ltac no_such_label H :=
  exfalso;
  repeat (apply in_app_iff in H; destruct H as [H|H]);
  unfold label_if in H;
  try match type of H with
      | In _ (if ?t then _ else _) => destruct t; [|contradiction]
      end;
  try destruct H as [H|[]]; try discriminate H; contradiction.

(** Case analysis on the test of every conditional label. *)
Ltac split_labels :=
  repeat match goal with
         | |- context [label_if ?t _] =>
             lazymatch t with
             | true => fail
             | false => fail
             | _ => destruct t
             end
         end.



(** Case analysis on every test of a rule cascade. *)
Ltac split_classifier :=
  repeat match goal with
         | |- context [match ?c with _ => _ end] => destruct c eqn:?
         end.

(** * Properties *)

(** ** Basic facts *)

Lemma Qlt_bool_iff (a b : Q) : Qlt_bool a b = true <-> (a < b)%Q.
Proof.
  unfold Qlt_bool. rewrite negb_true_iff. split.
  - intros H. apply Qnot_le_lt. intros Hle.
    apply Qle_bool_iff in Hle. congruence.
  - intros H. destruct (Qle_bool b a) eqn:E; trivial.
    apply Qle_bool_iff in E. exfalso. exact (Qlt_not_le _ _ H E).
Qed.

Lemma Qlt_bool_false_iff (a b : Q) : Qlt_bool a b = false <-> (b <= a)%Q.
Proof.
  unfold Qlt_bool. rewrite negb_false_iff. apply Qle_bool_iff.
Qed.

Lemma in_range a b n : In n (range a b) <-> (a <= n < b)%Z.
Proof.
  unfold range. rewrite in_map_iff. split.
  - intros (i & <- & Hi). apply in_seq in Hi. lia.
  - intros H. exists (Z.to_nat (n - a)). split; [lia|]. apply in_seq. lia.
Qed.

(** The scan visits exactly the positions of the rectangle that lie before
    the right and bottom edges and at which a pixel is read, each under its
    local coordinates. *)
Lemma in_scan im x y w h lx ly p :
  In (lx, ly, p) (scan im x y w h)
  <-> (0 <= lx < w)%Z /\ (0 <= ly < h)%Z
      /\ (x + lx < fst (size im))%Z /\ (y + ly < snd (size im))%Z
      /\ getpixel im (x + lx) (y + ly) = Some p.
Proof.
  unfold scan. rewrite in_flat_map. split.
  - intros (py & Hpy & Hin). apply in_flat_map in Hin as (px & Hpx & Hin).
    apply in_range in Hpy. apply in_range in Hpx.
    destruct (getpixel im px py) as [q|] eqn:E; simpl in Hin; [|contradiction].
    destruct Hin as [Hin|[]]. inversion Hin; subst; clear Hin.
    replace (x + (px - x))%Z with px by lia.
    replace (y + (py - y))%Z with py by lia.
    repeat split; try lia. exact E.
  - intros (Hx & Hy & Bx & By & E).
    exists (y + ly)%Z. split; [apply in_range; lia|].
    apply in_flat_map. exists (x + lx)%Z. split; [apply in_range; lia|].
    rewrite E. left.
    replace (x + lx - x)%Z with lx by lia.
    replace (y + ly - y)%Z with ly by lia. reflexivity.
Qed.







(** *** Rectangles that lie inside the image *)


Lemma flat_map_agree {A B : Type} (f g : A -> list B) (l : list A) :
  (forall a, In a l -> f a = g a) -> flat_map f l = flat_map g l.
Proof.
  induction l as [|a l IH]; simpl; intros H; [reflexivity|].
  rewrite (H a) by now left. f_equal. apply IH. intros b Hb. apply H. now right.
Qed.












Lemma sheet_inside (width height : nat) pixel_at (px py : nat) :
  px < width -> py < height ->
  getpixel (sheet width height pixel_at) px py = Some (pixel_at px py).
Proof.
  intros Hx Hy. cbn [getpixel sheet].
  replace (px <? 0)%Z with false by (symmetry; apply Z.ltb_ge; lia).
  replace (py <? 0)%Z with false by (symmetry; apply Z.ltb_ge; lia).
  replace (0 <=? px)%Z with true by (symmetry; apply Z.leb_le; lia).
  replace (px <? width)%Z with true by (symmetry; apply Z.ltb_lt; lia).
  replace (0 <=? py)%Z with true by (symmetry; apply Z.leb_le; lia).
  replace (py <? height)%Z with true by (symmetry; apply Z.ltb_lt; lia).
  simpl. now rewrite !Nat2Z.id.
Qed.


(** ** Glyph extraction *)

Lemma row_chars_app (s t : string) :
  row_chars (s ++ t) = row_chars s ++ row_chars t.
Proof.
  unfold row_chars. induction s as [|c s IH]; simpl; [reflexivity|].
  now rewrite IH.
Qed.

Lemma length_row_chars (s : string) : List.length (row_chars s) = String.length s.
Proof.
  unfold row_chars. induction s as [|c s IH]; simpl; [reflexivity|].
  now rewrite IH.
Qed.

Lemma get_row_chars (s : string) (n : nat) :
  String.get n s = nth_error (row_chars s) n.
Proof.
  unfold row_chars. revert n. induction s as [|c s IH]; intros [|n]; simpl; auto.
Qed.

Lemma row_chars_cell im x y thr pat py px :
  row_chars (cell im x y thr pat py px) = [cell_char im x y thr pat py px].
Proof.
  unfold cell, cell_char.
  destruct (getpixel im (x + px) (y + py)) as [p|]; [|reflexivity].
  destruct (is_inked thr pat p); reflexivity.
Qed.

Lemma row_chars_fold im x y thr pat py (l : list nat) (acc : string) :
  row_chars (fold_left (fun row px => (row ++ cell im x y thr pat py px)%string) l acc)
  = row_chars acc ++ map (cell_char im x y thr pat py) l.
Proof.
  revert acc. induction l as [|px l IH]; intros acc; simpl.
  - now rewrite app_nil_r.
  - rewrite IH, row_chars_app, row_chars_cell, <- app_assoc. reflexivity.
Qed.

(** A row is the sequence of its cells, column by column. *)
Lemma row_chars_extract_row im x y width thr pat py :
  row_chars (extract_row im x y width thr pat py)
  = map (cell_char im x y thr pat py) (seq 0 width).
Proof.
  unfold extract_row, range0. now rewrite row_chars_fold.
Qed.

Lemma cell_char_alphabet im x y thr pat py px :
  cell_char im x y thr pat py px = "@"%char \/ cell_char im x y thr pat py px = "."%char.
Proof.
  unfold cell_char. destruct (getpixel im (x + px) (y + py)) as [p|]; auto.
  destruct (is_inked thr pat p); auto.
Qed.

(** C8.  A rectangle of width 0 or height 0 is extracted as the one-line
    sentinel ["-"]; a rectangle of positive width and height is extracted
    as exactly [height] rows of exactly [width] characters, each ['@'] or
    ['.'], and a position at which the imaging library raises gives ['.'].
    The library does not raise at every position outside the image: it
    takes a negative coordinate from the opposite edge, so that on a sheet
    of two opaque pixels the glyph of width 2 at [x = -1] is extracted as
    ["@@"], although its first column lies outside the image. *)
Theorem extract_glyph_pixels_shape :
  (forall im x y width height threshold pat,
     (width = 0 \/ height = 0 ->
      extract_glyph_pixels im x y width height threshold pat = ["-"%string])
     /\ (0 < width -> 0 < height ->
         let rows := extract_glyph_pixels im x y width height threshold pat in
         List.length rows = height
         /\ (forall row, In row rows ->
               String.length row = width
               /\ Forall (fun c => c = "@"%char \/ c = "."%char) (row_chars row))
         /\ (forall px py, px < width -> py < height ->
               getpixel im (x + px) (y + py) = None ->
               String.get px (nth py rows ""%string) = Some "."%char)))
  /\ (let rows := extract_glyph_pixels edge_sheet (-1) 0 2 1 default_threshold None in
      inside edge_sheet (-1) 0 = false
      /\ String.get 0 (nth 0 rows ""%string) = Some "@"%char
      /\ rows = ["@@"%string]).
Proof.
  split; [|vm_compute; repeat split; reflexivity].
  intros im x y width height threshold pat. split.
  - intros [-> | ->]; unfold extract_glyph_pixels; simpl; [reflexivity|].
    now rewrite orb_true_r.
  - intros Hw Hh. cbv zeta. unfold extract_glyph_pixels.
    assert (E : (width =? 0) || (height =? 0) = false).
    { apply orb_false_iff. split; apply Nat.eqb_neq; lia. }
    rewrite E. unfold range0.
    split; [now rewrite length_map, length_seq|].
    split.
    + intros row Hin. apply in_map_iff in Hin as (py & <- & _).
      split.
      * rewrite <- length_row_chars, row_chars_extract_row.
        now rewrite length_map, length_seq.
      * rewrite row_chars_extract_row. apply Forall_forall.
        intros c Hc. apply in_map_iff in Hc as (px & <- & _).
        apply cell_char_alphabet.
    + intros px py Hpx Hpy Hout.
      rewrite nth_indep with (d' := extract_row im x y width threshold pat 0)
        by now rewrite length_map, length_seq.
      rewrite map_nth, seq_nth by lia. simpl.
      rewrite get_row_chars, row_chars_extract_row.
      rewrite nth_error_map, nth_error_nth' with (d := 0) by now rewrite length_seq.
      rewrite seq_nth by lia. simpl.
      unfold cell_char. now rewrite Hout.
Qed.

Lemma extract_glyph_pixels_shape_witness :
  extract_glyph_pixels blank_sheet 3 3 0 2 default_threshold None = ["-"%string]
  /\ List.length (extract_glyph_pixels blank_sheet 3 3 2 2 default_threshold None) = 2
  /\ String.get 1 (nth 0 (extract_glyph_pixels blank_sheet 3 3 2 2
                            default_threshold None) ""%string) = Some "."%char.
Proof.
  destruct (proj1 extract_glyph_pixels_shape blank_sheet 3%Z 3%Z 0 2
              default_threshold None) as [Hzero _].
  destruct (proj1 extract_glyph_pixels_shape blank_sheet 3%Z 3%Z 2 2
              default_threshold None) as [_ Hrows].
  destruct (Hrows ltac:(lia) ltac:(lia)) as (Hlen & _ & Hout).
  split; [apply Hzero; left; reflexivity|].
  split; [exact Hlen|].
  apply Hout; [lia|lia|reflexivity].
Defined.

(** ** Section emitter *)

Lemma insert_char_perm e l : Permutation (insert_char e l) (e :: l).
Proof.
  induction l as [|h t IH]; simpl; [reflexivity|].
  destruct (fst e <=? fst h)%Z; [reflexivity|].
  rewrite IH. apply perm_swap.
Qed.

Lemma sort_chars_perm l : Permutation (sort_chars l) l.
Proof.
  induction l as [|e l IH]; simpl; [reflexivity|].
  rewrite insert_char_perm. now constructor.
Qed.

Lemma insert_char_hd e a l :
  code_le a e -> HdRel code_le a l -> HdRel code_le a (insert_char e l).
Proof.
  intros Hae Hal. destruct l as [|h t]; simpl; [now constructor|].
  destruct (fst e <=? fst h)%Z; constructor; trivial.
  now inversion Hal.
Qed.

Lemma insert_char_sorted e l :
  Sorted code_le l -> Sorted code_le (insert_char e l).
Proof.
  induction 1 as [|h t Hs IH Hh]; simpl.
  - repeat constructor.
  - destruct (fst e <=? fst h)%Z eqn:E.
    + constructor; [now constructor|]. constructor.
      unfold code_le. now apply Z.leb_le.
    + constructor; trivial. apply insert_char_hd; trivial.
      unfold code_le. apply Z.leb_gt in E. lia.
Qed.

Lemma sort_chars_sorted l : Sorted code_le (sort_chars l).
Proof.
  induction l as [|e l IH]; simpl; [constructor|].
  now apply insert_char_sorted.
Qed.

Lemma get_unicode_codepoint_cases c :
  get_unicode_codepoint c = expected_codepoint c.
Proof.
  unfold get_unicode_codepoint, expected_codepoint. simpl.
  destruct (c =? 145)%Z; [reflexivity|].
  destruct (c =? 146)%Z; reflexivity.
Qed.

Lemma read_zfill_aux k s d :
  HexadecimalString.NilEmpty.uint_of_string s = Some d ->
  exists d', HexadecimalString.NilEmpty.uint_of_string (zfill_aux k s) = Some d'
             /\ N.of_hex_uint d' = N.of_hex_uint d.
Proof.
  intros H. induction k as [|k (d' & E & V)]; simpl.
  - now exists d.
  - rewrite E. simpl. exists (Hexadecimal.D0 d'). split; [reflexivity|].
    rewrite <- V. reflexivity.
Qed.

Lemma to_hex_uint_nonnil (n : N) : N.to_hex_uint n <> Hexadecimal.Nil.
Proof.
  destruct n as [|p]; simpl; [discriminate|].
  apply HexadecimalPos.Unsigned.to_uint_nonnil.
Qed.

Lemma zfill_aux_empty k s : zfill_aux k s = EmptyString -> s = EmptyString.
Proof. destruct k; simpl; [trivial|discriminate]. Qed.

(** The four-digit form of a non-negative code reads back as the code. *)
Lemma read_04x_format z : (0 <= z)%Z -> read_04x (format_04x z) = Some z.
Proof.
  intros Hz. unfold format_04x, read_04x.
  destruct (z <? 0)%Z eqn:E; [apply Z.ltb_lt in E; lia|].
  unfold zfill, hex_digits.
  set (n := Z.abs_N z).
  pose proof (to_hex_uint_nonnil n) as Hn.
  assert (Hs : HexadecimalString.NilEmpty.uint_of_string
                 (HexadecimalString.NilZero.string_of_uint (N.to_hex_uint n))
               = Some (N.to_hex_uint n)).
  { unfold HexadecimalString.NilZero.string_of_uint.
    destruct (N.to_hex_uint n) eqn:En; try congruence;
      rewrite <- En; apply HexadecimalString.NilEmpty.usu. }
  destruct (read_zfill_aux
              (4 - String.length (HexadecimalString.NilZero.string_of_uint (N.to_hex_uint n)))
              _ _ Hs) as (d' & E' & V).
  unfold HexadecimalString.NilZero.uint_of_string.
  destruct (zfill_aux _ _) eqn:Ez.
  - apply zfill_aux_empty in Ez. rewrite Ez in Hs. simpl in Hs. congruence.
  - rewrite E'. simpl. f_equal.
    rewrite V, HexadecimalN.Unsigned.of_to. subst n. lia.
Qed.

Lemma emit_glyph_head im dflt height pat c d :
  exists label rest,
    emit_glyph im dflt height pat (c, d)
    = label :: ("u+" ++ format_04x (expected_codepoint c) ++ ":")%string :: rest.
Proof.
  unfold emit_glyph. destruct (resolve dflt height d) as [[[x y] w] h].
  rewrite get_unicode_codepoint_cases. simpl. eauto.
Qed.

(** C9.  The glyph part of every document is the concatenation of one block
    per character entry, the blocks taken in ascending order of the source
    code (a sorted rearrangement of the table's character entries); the
    second line of a block is the tag [u+XXXX:], whose digits are those of
    the source code itself, but of U+2018 for code 145 and U+2019 for 146,
    and read back as that codepoint. *)
Theorem glyph_blocks_ordered_and_tagged im fd height pat :
  let chars := sort_chars (chars_of fd) in
  let block := emit_glyph im (defaults_of fd) height in
  generate_font_section im fd height pat
    = (flat_map (block pat) chars, List.length chars)
  /\ (forall db json_filename png_filename font_name family_name p game_id,
        exists header,
          fst (write_single_yaff im db json_filename png_filename
                 fd font_name family_name height p game_id)
          = header ++ flat_map (block (Some p)) chars)
  /\ Permutation chars (chars_of fd)
  /\ Sorted code_le chars
  /\ (forall c d, In (c, d) chars ->
        (exists label rest,
           block pat (c, d)
           = label :: ("u+" ++ format_04x (expected_codepoint c) ++ ":")%string :: rest)
        /\ ((0 <= c)%Z ->
            read_04x (format_04x (expected_codepoint c)) = Some (expected_codepoint c))).
Proof.
  intros chars block.
  split; [reflexivity|].
  split.
  { intros. eexists. reflexivity. }
  split; [apply sort_chars_perm|].
  split; [apply sort_chars_sorted|].
  intros c d _. split; [apply emit_glyph_head|].
  intros Hc. apply read_04x_format. unfold expected_codepoint.
  destruct (c =? 145)%Z; [lia|]. destruct (c =? 146)%Z; lia.
Qed.

Lemma glyph_blocks_ordered_and_tagged_witness :
  read_04x (format_04x (expected_codepoint 145)) = Some 8216%Z.
Proof.
  refine (proj2 (proj2 (proj2 (proj2 (proj2
    (glyph_blocks_ordered_and_tagged hue_sheet font_quotes 1 None)))) 145%Z
    {| g_x := Some 0%Z; g_y := Some 0%Z; g_w := Some 1; g_h := Some 1;
       g_right_bearing := None |} _) _).
  - vm_compute. right. left. reflexivity.
  - lia.
Defined.

(** ** Overrides keep what the classifier measured *)

Lemma force_main_keeps t p :
  skip (force_main t p) = skip p
  /\ is_monospace (force_main t p) = is_monospace p
  /\ max_width (force_main t p) = max_width p
  /\ max_height (force_main t p) = max_height p
  /\ dark_ratio (force_main t p) = dark_ratio p
  /\ type (force_main t p) = t.
Proof. destruct t; repeat split; reflexivity. Qed.

Lemma force_subfont_keeps t p :
  skip (force_subfont t p) = skip p
  /\ is_monospace (force_subfont t p) = is_monospace p
  /\ max_width (force_subfont t p) = max_width p
  /\ max_height (force_subfont t p) = max_height p
  /\ dark_ratio (force_subfont t p) = dark_ratio p
  /\ type (force_subfont t p) = t.
Proof. destruct t; repeat split; reflexivity. Qed.

Lemma apply_main_override_keeps game_name p :
  skip (apply_main_override game_name p) = skip p
  /\ is_monospace (apply_main_override game_name p) = is_monospace p
  /\ max_width (apply_main_override game_name p) = max_width p
  /\ max_height (apply_main_override game_name p) = max_height p.
Proof.
  unfold apply_main_override.
  destruct (get FONT_TYPE_OVERRIDES game_name) as [t|]; [|tauto].
  destruct (force_main_keeps t p) as (? & ? & ? & ? & _). tauto.
Qed.

Lemma apply_subfont_override_keeps game_name subfont_name p :
  skip (apply_subfont_override game_name subfont_name p) = skip p
  /\ is_monospace (apply_subfont_override game_name subfont_name p) = is_monospace p
  /\ max_width (apply_subfont_override game_name subfont_name p) = max_width p
  /\ max_height (apply_subfont_override game_name subfont_name p) = max_height p.
Proof.
  unfold apply_subfont_override.
  destruct (get FONT_TYPE_OVERRIDES _) as [t|]; [|tauto].
  destruct (force_subfont_keeps t p) as (? & ? & ? & ? & _). tauto.
Qed.

(** ** The sample without a visible pixel *)

Lemma filter_nil {A : Type} (f : A -> bool) (l : list A) :
  (forall a, In a l -> f a = false) -> filter f l = [].
Proof.
  induction l as [|a l IH]; simpl; intros H; [reflexivity|].
  rewrite (H a) by now left. apply IH. intros b Hb. apply H. now right.
Qed.

Lemma sampled_pixels_blank im x y w h :
  (forall lx ly r g b a, lx < w -> ly < h ->
     getpixel im (x + lx) (y + ly) = Some (r, g, b, a) -> (a <= 10)%Z) ->
  sampled_pixels im x y w h = [].
Proof.
  intros H. unfold sampled_pixels. apply filter_nil.
  intros [[[r g] b] a] Hin. apply in_map_iff in Hin as ([[lx ly] q] & Heq & Hin).
  simpl in Heq. subst q. apply in_scan in Hin as (Hx & Hy & _ & _ & E).
  unfold alpha. simpl. apply Z.ltb_ge.
  apply (H (Z.to_nat lx) (Z.to_nat ly) r g b a); try lia.
  now rewrite !Z2Nat.id by lia.
Qed.

(** C10.  When the sampled rectangle holds no pixel with alpha above 10,
    the classifier returns exactly [{'type': 'unknown', 'skip': False}],
    without the keys [is_monospace], [max_width] and [max_height]; the
    font is then emitted, main font or subfont, with or without an
    override entry, as proportional and with both maximum dimensions equal
    to the global height. *)
Theorem blank_sample_classification im fd height x y w h :
  sample_rect fd height = Some (x, y, w, h) ->
  (forall lx ly r g b a, lx < w -> ly < h ->
     getpixel im (x + lx) (y + ly) = Some (r, g, b, a) -> (a <= 10)%Z) ->
  let p := analyze_font_pattern im fd height in
  p = bare unknown false
  /\ type p = unknown /\ skip p = false
  /\ is_monospace p = None /\ max_width p = None /\ max_height p = None
  /\ (forall db json_filename png_filename title_case subfonts game_name base_font_name,
        exists doc rest,
          generate_yaff im db json_filename png_filename title_case
            fd subfonts height game_name base_font_name = doc :: rest
          /\ doc_monospace doc = false
          /\ doc_max_width doc = height
          /\ doc_max_height doc = height)
  /\ (forall db json_filename png_filename title_case outer_height
             game_name base_font_name subfont_name,
        exists doc,
          generate_subfont im db json_filename png_filename title_case
            outer_height game_name base_font_name (subfont_name, (Some height, fd))
          = [doc]
          /\ doc_monospace doc = false
          /\ doc_max_width doc = height
          /\ doc_max_height doc = height).
Proof.
  intros Hrect Hblank p.
  assert (Hp : p = bare unknown false).
  { subst p. unfold analyze_font_pattern. rewrite Hrect.
    unfold classify_sample. now rewrite (sampled_pixels_blank _ _ _ _ _ Hblank). }
  split; [exact Hp|]. rewrite Hp. repeat (split; [reflexivity|]).
  split.
  - intros. unfold generate_yaff, main_pattern. fold p. rewrite Hp.
    destruct (apply_main_override_keeps game_name (bare unknown false))
      as (Hs & Hm & Hw & Hh).
    simpl in Hs. rewrite Hs. eexists. eexists. split; [reflexivity|].
    unfold emit, reported_monospace, reported_max_width, reported_max_height.
    simpl. rewrite Hm, Hw, Hh. simpl. auto.
  - intros. unfold generate_subfont, subfont_pattern. simpl get_or. fold p. rewrite Hp.
    destruct (apply_subfont_override_keeps game_name subfont_name (bare unknown false))
      as (Hs & Hm & Hw & Hh).
    simpl in Hs. rewrite Hs. eexists. split; [reflexivity|].
    unfold emit, reported_monospace, reported_max_width, reported_max_height.
    simpl. rewrite Hm, Hw, Hh. simpl. auto.
Qed.

Lemma blank_sample_classification_witness :
  analyze_font_pattern blank_sheet (font_A 4 4) 13 = bare unknown false.
Proof.
  refine (proj1 (blank_sample_classification blank_sheet (font_A 4 4) 13
                   0%Z 0%Z 4 4 _ _)).
  - reflexivity.
  - intros lx ly r g b a Hx Hy E. unfold blank_sheet in E.
    rewrite !Z.add_0_l, sheet_inside in E by assumption.
    inversion E. lia.
Defined.

(** ** Invariants of the classifier's result *)

Lemma single_hue_invariants im fd height pixels x y w h ch p :
  single_hue im fd height pixels x y w h ch = Some p ->
  skip p = false /\ type p <> multi_color /\ one_removal p
  /\ (type p = chromatic_shadowed \/ type p = chromatic_outlined).
Proof.
  unfold single_hue, one_removal. intros H.
  destruct ((0 <? count is_bright_opaque pixels) && (0 <? count is_dark_opaque pixels));
    [|discriminate].
  destruct (detect_spatial_pattern im x y w h);
    [| |destruct (Qlt_bool _ _)]; inversion H; subst; simpl;
    repeat split; auto; discriminate.
Qed.

Lemma chromatic_branch_invariants im fd height pixels x y w h :
  let p := chromatic_branch im fd height pixels x y w h in
  (skip p = true <-> type p = multi_color) /\ one_removal p.
Proof.
  unfold chromatic_branch.
  set (mc := ret_multi_color fd height _).
  assert (Hmc : (skip mc = true <-> type mc = multi_color) /\ one_removal mc).
  { unfold one_removal. simpl. split; [tauto|discriminate]. }
  destruct (most_common _) as [[ch cnt]|]; trivial.
  destruct (Qlt_bool _ _); trivial.
  destruct (single_hue im fd height pixels x y w h ch) as [p|] eqn:E; trivial.
  destruct (single_hue_invariants _ _ _ _ _ _ _ _ _ _ E) as (Hs & Ht & Ho & _).
  cbv zeta. rewrite Hs. split; [|exact Ho]. split; [discriminate|contradiction].
Qed.

Lemma achromatic_rules_invariants fd height pixels :
  let p := achromatic_rules fd height pixels in
  skip p = false /\ type p <> multi_color /\ one_removal p.
Proof.
  unfold achromatic_rules, one_removal.
  split_classifier; simpl; repeat split; auto; discriminate.
Qed.

Lemma analyze_invariants im fd height :
  let p := analyze_font_pattern im fd height in
  (skip p = true <-> type p = multi_color) /\ one_removal p.
Proof.
  unfold analyze_font_pattern.
  assert (Hu : forall q, skip q = false -> type q <> multi_color -> one_removal q ->
                 (skip q = true <-> type q = multi_color) /\ one_removal q).
  { intros q Hs Ht Ho. rewrite Hs. split; [|exact Ho].
    split; [discriminate|contradiction]. }
  destruct (sample_rect fd height) as [[[[x y] w] h]|].
  - unfold classify_sample.
    destruct (sampled_pixels im x y w h) as [|px0 pixels].
    + apply Hu; unfold one_removal; simpl; auto; discriminate.
    + destruct (Qlt_bool _ _).
      * apply chromatic_branch_invariants.
      * destruct (achromatic_rules_invariants fd height (px0 :: pixels)) as (? & ? & ?).
        now apply Hu.
  - apply Hu; unfold one_removal; simpl; auto; discriminate.
Qed.

Lemma force_main_one_removal t p : one_removal p -> one_removal (force_main t p).
Proof. unfold one_removal. destruct t; simpl; auto; discriminate. Qed.

Lemma force_subfont_one_removal t p : one_removal p -> one_removal (force_subfont t p).
Proof. unfold one_removal. destruct t; simpl; auto; discriminate. Qed.

Lemma in_effect_one_removal p : in_effect p -> one_removal p.
Proof.
  destruct 1 as [im fd height game_name|im fd height game_name subfont_name].
  - unfold main_pattern, apply_main_override.
    destruct (get FONT_TYPE_OVERRIDES game_name);
      [apply force_main_one_removal|]; apply analyze_invariants.
  - unfold subfont_pattern, apply_subfont_override.
    destruct (get FONT_TYPE_OVERRIDES _);
      [apply force_subfont_one_removal|]; apply analyze_invariants.
Qed.

(** C6.  For a pattern in effect with [remove_shadow] set and type
    [chromatic_shadowed], a pixel with alpha above the threshold 128 is ink
    exactly when its brightness [max(r,g,b)] is below 100, if the recorded
    [dark_ratio] is at least 0.4, and exactly when its brightness is above
    150 otherwise; a pixel with alpha at most 128 is never ink. *)
Theorem chromatic_shadowed_ink p :
  in_effect p ->
  flag_set (remove_shadow p) = true ->
  type p = chromatic_shadowed ->
  forall r g b a,
    let recorded := get_or (dark_ratio p) 0%Q in
    let inked := is_inked default_threshold (Some p) (r, g, b, a) in
    ((a <= 128)%Z -> inked = false)
    /\ ((128 < a)%Z -> (4 # 10 <= recorded)%Q ->
        (inked = true <-> (max3 r g b < 100)%Z))
    /\ ((128 < a)%Z -> ~ (4 # 10 <= recorded)%Q ->
        (inked = true <-> (150 < max3 r g b)%Z)).
Proof.
  intros He Hshadow Htype r g b a recorded inked.
  pose proof (in_effect_one_removal p He Hshadow) as Houtline.
  subst inked recorded. unfold is_inked, default_threshold.
  rewrite Houtline, Hshadow, Htype.
  destruct (font_type_eq_dec chromatic_shadowed chromatic_shadowed_bright) as [D|_];
    [discriminate D|].
  destruct (font_type_eq_dec chromatic_shadowed chromatic_shadowed) as [_|N];
    [|contradiction].
  split; [|split].
  - intros Ha. apply Z.ltb_ge in Ha. now rewrite Ha.
  - intros Ha Hr. apply Z.ltb_lt in Ha. rewrite Ha.
    apply Qle_bool_iff in Hr. rewrite Hr. apply Z.ltb_lt.
  - intros Ha Hr. apply Z.ltb_lt in Ha. rewrite Ha.
    destruct (Qle_bool (4 # 10) (get_or (dark_ratio p) 0%Q)) eqn:E.
    + apply Qle_bool_iff in E. contradiction.
    + apply Z.ltb_lt.
Qed.

Lemma chromatic_shadowed_ink_witness :
  is_inked default_threshold
    (Some (main_pattern shadow_sheet (font_A 10 10) 10 ""%string))
    (opaque 90 0 0) = true.
Proof.
  destruct (chromatic_shadowed_ink
              (main_pattern shadow_sheet (font_A 10 10) 10 ""%string)
              (in_effect_main shadow_sheet (font_A 10 10) 10 ""%string)
              eq_refl eq_refl 90%Z 0%Z 0%Z 255%Z) as (_ & H & _).
  apply H.
  - reflexivity.
  - vm_compute. discriminate.
  - reflexivity.
Defined.

(** ** Overrides *)

(** On the main font the forced type decides both removal flags, family by
    family. *)
Lemma force_main_flags t p :
  let q := force_main t p in
  type q = t
  /\ (t = antialiased \/ t = unknown \/ t = chromatic_bright ->
      remove_shadow q = Some false /\ remove_outline q = Some false)
  /\ (t = shadowed \/ t = chromatic_shadowed \/ t = chromatic_shadowed_bright ->
      remove_shadow q = Some true /\ remove_outline q = Some false)
  /\ (t = outlined \/ t = chromatic_outlined ->
      remove_shadow q = Some false /\ remove_outline q = Some true).
Proof.
  split; [destruct t; reflexivity|].
  repeat split;
    repeat match goal with H : _ \/ _ |- _ => destruct H end; subst; reflexivity.
Qed.

(** C1.  The subfont key [wof-red] forces [chromatic_bright] on a subfont
    the classifier found [shadowed]: the type is replaced but
    [remove_shadow] stays set and [remove_outline] stays absent, whereas the
    same table entry read as a whole-font key clears both flags; the
    extractor then drops a black pixel that the cleared flags would keep. *)
Theorem subfont_override_leaves_flags :
  let auto := analyze_font_pattern gray_sheet (font_A 10 1) 13 in
  let sub := subfont_pattern gray_sheet (font_A 10 1) 13 "wof" "red" in
  let main := main_pattern gray_sheet (font_A 10 1) 13 "wof-red" in
  type auto = shadowed /\ remove_shadow auto = Some true
  /\ get FONT_TYPE_OVERRIDES (subfont_key "wof" "red") = Some chromatic_bright
  /\ type sub = chromatic_bright
  /\ remove_shadow sub = Some true /\ remove_outline sub = None
  /\ type main = chromatic_bright
  /\ remove_shadow main = Some false /\ remove_outline main = Some false
  /\ is_inked default_threshold (Some sub) (opaque 0 0 0) = false
  /\ is_inked default_threshold (Some main) (opaque 0 0 0) = true.
Proof. vm_compute. repeat split; reflexivity. Qed.

(** C2, as stated, fails: the font [mw] has an override entry, and when the
    classifier finds it multi-coloured the pattern in effect at the skip
    test has [skip] true with type [antialiased]. *)
Lemma skip_without_multi_color :
  let p := main_pattern hue_sheet (font_A 5 1) 13 "mw" in
  ~ (skip p = true <-> type p = multi_color).
Proof.
  intros p [H _]. assert (E : skip p = true) by (vm_compute; reflexivity).
  specialize (H E). vm_compute in H. discriminate H.
Qed.

(** C2, amended.  In the pattern the classifier returns, [skip] is true
    exactly when the type is [multi_color]; an override entry replaces the
    type and leaves [skip] as classified, so at the skip test of a font or
    subfont [skip] is true exactly when the type found by the classifier
    was [multi_color]. *)
Theorem skip_iff_classified_multi_color im fd height game_name subfont_name :
  let auto := analyze_font_pattern im fd height in
  (skip auto = true <-> type auto = multi_color)
  /\ skip (main_pattern im fd height game_name) = skip auto
  /\ skip (subfont_pattern im fd height game_name subfont_name) = skip auto
  /\ (skip (main_pattern im fd height game_name) = true
      <-> type auto = multi_color)
  /\ (skip (subfont_pattern im fd height game_name subfont_name) = true
      <-> type auto = multi_color).
Proof.
  intros auto.
  destruct (analyze_invariants im fd height) as [Hiff _]. fold auto in Hiff.
  destruct (apply_main_override_keeps game_name auto) as (Hm & _).
  destruct (apply_subfont_override_keeps game_name subfont_name auto) as (Hs & _).
  unfold main_pattern, subfont_pattern. fold auto.
  rewrite Hm, Hs. tauto.
Qed.

(** ** Monospace and dimensions *)

(** The heights the classifier collects are the resolved heights. *)
Lemma heights_of_resolved fd height :
  heights_of fd (get_or (g_h (defaults_of fd)) height) = resolved_heights fd height.
Proof. reflexivity. Qed.

(** The widths it collects are the resolved widths as soon as no glyph
    needs the square fallback. *)
Lemma widths_of_resolved fd height :
  (forall k d, In (k, d) (glyph_entries fd) ->
     g_w d <> None \/ g_w (defaults_of fd) <> None) ->
  widths_of fd (g_w (defaults_of fd)) = resolved_widths fd height.
Proof.
  unfold widths_of, resolved_widths. intros H.
  induction (glyph_entries fd) as [|[k d] l IH]; simpl; [reflexivity|].
  rewrite IH by (intros k' d' Hin; apply (H k' d'); now right).
  unfold resolve.
  destruct (H k d (or_introl eq_refl)) as [Hw|Hw];
    destruct (g_w d); destruct (g_w (defaults_of fd)); simpl;
    reflexivity || congruence.
Qed.

(** C4.  With a glyph A of width 5, a glyph B that has no width of its own
    and no [default] entry, in a font of height 13, the resolved widths are
    5 and 13, yet the classifier reports a monospace font of maximum
    width 5: B is left out of the widths it compares. *)
Theorem widths_miss_square_fallback :
  let p := analyze_font_pattern hue_sheet font_A_Bsquare 13 in
  g_w (defaults_of font_A_Bsquare) = None
  /\ resolved_widths font_A_Bsquare 13 = [5; 13]
  /\ widths_of font_A_Bsquare None = [5]
  /\ is_monospace p = Some true
  /\ max_width p = Some 5.
Proof. vm_compute. repeat split; reflexivity. Qed.

(** ** What the classification depends on *)

Lemma same_but_dims_with_dims fd1 h1 fd2 h2 p :
  same_but_dims (with_dims fd1 h1 p) (with_dims fd2 h2 p).
Proof. repeat split. Qed.

Lemma single_hue_same_but_dims im fd1 h1 fd2 h2 pixels x y w h ch :
  match single_hue im fd1 h1 pixels x y w h ch,
        single_hue im fd2 h2 pixels x y w h ch with
  | Some p, Some q => same_but_dims p q
  | None, None => True
  | _, _ => False
  end.
Proof.
  unfold single_hue.
  destruct ((0 <? count is_bright_opaque pixels) && (0 <? count is_dark_opaque pixels));
    [|exact I].
  destruct (detect_spatial_pattern im x y w h);
    [| |destruct (Qlt_bool _ _)]; apply same_but_dims_with_dims.
Qed.

Lemma single_hue_dims im fd height pixels x y w h ch p :
  single_hue im fd height pixels x y w h ch = Some p ->
  is_monospace p = Some (is_monospace_of fd)
  /\ max_width p = Some (max_width_of fd height)
  /\ max_height p = Some (max_height_of fd height).
Proof.
  unfold single_hue.
  destruct ((0 <? count is_bright_opaque pixels) && (0 <? count is_dark_opaque pixels));
    [|discriminate].
  destruct (detect_spatial_pattern im x y w h);
    [| |destruct (Qlt_bool _ _)]; intros H; inversion H; repeat split.
Qed.

Lemma classify_sample_same_but_dims im fd1 h1 fd2 h2 x y w h :
  same_but_dims (classify_sample im fd1 h1 x y w h)
                (classify_sample im fd2 h2 x y w h).
Proof.
  unfold classify_sample.
  destruct (sampled_pixels im x y w h) as [|px0 pixels]; [repeat split|].
  destruct (Qlt_bool _ _).
  - unfold chromatic_branch, ret_multi_color.
    destruct (most_common _) as [[ch cnt]|]; [|apply same_but_dims_with_dims].
    destruct (Qlt_bool _ _); [|apply same_but_dims_with_dims].
    pose proof (single_hue_same_but_dims im fd1 h1 fd2 h2 (px0 :: pixels) x y w h ch) as H.
    destruct (single_hue im fd1 h1 (px0 :: pixels) x y w h ch);
      destruct (single_hue im fd2 h2 (px0 :: pixels) x y w h ch);
      try contradiction; [exact H|apply same_but_dims_with_dims].
  - unfold achromatic_rules, ret_outlined, ret_shadowed.
    split_classifier; apply same_but_dims_with_dims.
Qed.

Lemma classify_sample_dims im fd height x y w h :
  let p := classify_sample im fd height x y w h in
  (is_monospace p = None /\ max_width p = None /\ max_height p = None)
  \/ (is_monospace p = Some (is_monospace_of fd)
      /\ max_width p = Some (max_width_of fd height)
      /\ max_height p = Some (max_height_of fd height)).
Proof.
  unfold classify_sample.
  destruct (sampled_pixels im x y w h) as [|px0 pixels]; [left; repeat split|].
  right. destruct (Qlt_bool _ _).
  - unfold chromatic_branch.
    destruct (most_common _) as [[ch cnt]|]; [|repeat split].
    destruct (Qlt_bool _ _); [|repeat split].
    destruct (single_hue im fd height (px0 :: pixels) x y w h ch) eqn:E;
      [|repeat split].
    eapply single_hue_dims; eassumption.
  - unfold achromatic_rules.
    split_classifier; repeat split.
Qed.

(** C5, as stated, fails: on one sprite sheet, with one sampled rectangle
    and one global height, a table that holds the letter A alone and a
    table that holds a narrower B as well are classified differently. *)
Lemma classification_not_determined_by_sample :
  sample_rect (font_A 5 1) 13 = sample_rect font_AB 13
  /\ analyze_font_pattern hue_sheet (font_A 5 1) 13
     <> analyze_font_pattern hue_sheet font_AB 13.
Proof.
  split; [reflexivity|].
  intros H. apply (f_equal is_monospace) in H. vm_compute in H. discriminate H.
Qed.

(** C5, amended.  Two classifications made on the same sprite sheet with
    the same sampled rectangle agree on every key except [is_monospace],
    [max_width] and [max_height]; these three, when the result carries
    them, are computed from all the glyph entries of the table and the
    global height. *)
Theorem classification_determined_up_to_dims im fd1 h1 fd2 h2 rect :
  sample_rect fd1 h1 = Some rect ->
  sample_rect fd2 h2 = Some rect ->
  let p1 := analyze_font_pattern im fd1 h1 in
  let p2 := analyze_font_pattern im fd2 h2 in
  same_but_dims p1 p2
  /\ ((is_monospace p1 = None /\ max_width p1 = None /\ max_height p1 = None)
      \/ (is_monospace p1 = Some (is_monospace_of fd1)
          /\ max_width p1 = Some (max_width_of fd1 h1)
          /\ max_height p1 = Some (max_height_of fd1 h1)))
  /\ ((is_monospace p2 = None /\ max_width p2 = None /\ max_height p2 = None)
      \/ (is_monospace p2 = Some (is_monospace_of fd2)
          /\ max_width p2 = Some (max_width_of fd2 h2)
          /\ max_height p2 = Some (max_height_of fd2 h2))).
Proof.
  intros H1 H2 p1 p2. subst p1 p2. unfold analyze_font_pattern.
  rewrite H1, H2. destruct rect as [[[x y] w] h].
  split; [apply classify_sample_same_but_dims|].
  split; apply classify_sample_dims.
Qed.

Lemma classification_determined_up_to_dims_witness :
  same_but_dims (analyze_font_pattern hue_sheet (font_A 5 1) 13)
                (analyze_font_pattern hue_sheet font_AB 13).
Proof.
  apply (proj1 (classification_determined_up_to_dims
                  hue_sheet (font_A 5 1) 13 font_AB 13 (0%Z, 0%Z, 5, 1)
                  eq_refl eq_refl)).
Defined.

(** ** The counter of dominant channels *)

Lemma channel_eqb_eq a b : channel_eqb a b = true <-> a = b.
Proof. destruct a, b; simpl; split; congruence. Qed.

Lemma channel_eqb_refl a : channel_eqb a a = true.
Proof. now destruct a. Qed.

Lemma counted_counter_add c cnt c' :
  counted (counter_add c cnt) c'
  = if channel_eqb c' c then S (counted cnt c') else counted cnt c'.
Proof.
  induction cnt as [|[k n] rest IH]; simpl.
  - destruct (channel_eqb c' c); reflexivity.
  - destruct (channel_eqb c k) eqn:Eck; simpl.
    + apply channel_eqb_eq in Eck. subst k.
      destruct (channel_eqb c' c); reflexivity.
    + destruct (channel_eqb c' k) eqn:Ek; [|exact IH].
      apply channel_eqb_eq in Ek. subst k.
      destruct (channel_eqb c' c) eqn:E; [|reflexivity].
      apply channel_eqb_eq in E. subst c'. rewrite channel_eqb_refl in Eck.
      discriminate.
Qed.

Lemma counted_fold l cnt c :
  counted (fold_left (fun acc k => counter_add k acc) l cnt) c
  = counted cnt c + occurrences l c.
Proof.
  revert cnt. induction l as [|k l IH]; intros cnt; simpl; [lia|].
  rewrite IH, counted_counter_add. unfold occurrences.
  destruct (channel_eq_dec k c) as [->|N].
  - rewrite channel_eqb_refl. lia.
  - destruct (channel_eqb c k) eqn:E; [|lia].
    apply channel_eqb_eq in E. congruence.
Qed.

(** The counter holds, for every channel, its number of occurrences. *)
Lemma counted_Counter l c : counted (Counter l) c = occurrences l c.
Proof. unfold Counter. now rewrite counted_fold. Qed.

Lemma keys_counter_add c cnt k :
  In k (map fst (counter_add c cnt)) <-> k = c \/ In k (map fst cnt).
Proof.
  induction cnt as [|[k' n] rest IH]; simpl; [intuition|].
  destruct (channel_eqb c k') eqn:E; simpl.
  - apply channel_eqb_eq in E. subst k'. intuition.
  - rewrite IH. intuition.
Qed.

Lemma nodup_counter_add c cnt :
  NoDup (map fst cnt) -> NoDup (map fst (counter_add c cnt)).
Proof.
  induction cnt as [|[k n] rest IH]; simpl; intros H.
  - repeat constructor. intros [].
  - inversion H as [|? ? Hk Hr]; subst.
    destruct (channel_eqb c k) eqn:E; simpl; [now constructor|].
    constructor; [|now apply IH].
    rewrite keys_counter_add. intros [->|Hin]; [|contradiction].
    rewrite channel_eqb_refl in E. discriminate.
Qed.

Lemma nodup_Counter l : NoDup (map fst (Counter l)).
Proof.
  unfold Counter.
  assert (G : forall cnt, NoDup (map fst cnt) ->
                NoDup (map fst (fold_left (fun acc k => counter_add k acc) l cnt))).
  { induction l as [|k l IH]; intros cnt H; simpl; [exact H|].
    apply IH. now apply nodup_counter_add. }
  apply G. constructor.
Qed.

Lemma counted_in cnt c n :
  NoDup (map fst cnt) -> In (c, n) cnt -> counted cnt c = n.
Proof.
  induction cnt as [|[k m] rest IH]; simpl; intros Hnd Hin; [contradiction|].
  inversion Hnd as [|? ? Hk Hr]; subst.
  destruct Hin as [Heq|Hin].
  - inversion Heq; subst. now rewrite channel_eqb_refl.
  - destruct (channel_eqb c k) eqn:E; [|now apply IH].
    apply channel_eqb_eq in E. subst k. exfalso. apply Hk.
    apply in_map_iff. now exists (c, n).
Qed.

Lemma counted_bound cnt c bound :
  (forall k n, In (k, n) cnt -> n <= bound) -> counted cnt c <= bound.
Proof.
  induction cnt as [|[k m] rest IH]; simpl; intros H; [lia|].
  destruct (channel_eqb c k).
  - apply (H k m). now left.
  - apply IH. intros k' n' Hin. apply (H k' n'). now right.
Qed.

Lemma most_common_max cnt c n :
  most_common cnt = Some (c, n) ->
  In (c, n) cnt /\ forall k m, In (k, m) cnt -> m <= n.
Proof.
  revert c n. induction cnt as [|[k0 n0] rest IH]; simpl; intros c n H;
    [discriminate|].
  destruct (most_common rest) as [[c' n']|] eqn:E.
  - destruct (IH c' n' eq_refl) as [Hin Hmax].
    destruct (n0 <? n') eqn:L; inversion H; subst; clear H.
    + apply Nat.ltb_lt in L. split; [now right|].
      intros k m [Heq|Hk]; [inversion Heq; lia|eauto].
    + apply Nat.ltb_ge in L. split; [now left|].
      intros k m [Heq|Hk]; [inversion Heq; lia|].
      specialize (Hmax k m Hk). lia.
  - inversion H; subst; clear H. split; [now left|].
    intros k m [Heq|Hk]; [inversion Heq; lia|].
    destruct rest as [|[k1 n1] rest']; [contradiction|].
    simpl in E. destruct (most_common rest') as [[? ?]|];
      [destruct (n1 <? _)|]; discriminate.
Qed.

(** [most_common] of the counter of a list: a channel with the greatest
    number of occurrences, and that number. *)
Lemma most_common_Counter l c n :
  most_common (Counter l) = Some (c, n) ->
  n = occurrences l c /\ forall k, occurrences l k <= n.
Proof.
  intros H. destruct (most_common_max _ _ _ H) as [Hin Hmax]. split.
  - rewrite <- counted_Counter. symmetry.
    apply counted_in; [apply nodup_Counter|exact Hin].
  - intros k. rewrite <- counted_Counter. now apply counted_bound.
Qed.

Lemma most_common_none l : most_common (Counter l) = None -> l = [].
Proof.
  intros H. destruct l as [|k l]; [reflexivity|]. exfalso.
  assert (Hc : counted (Counter (k :: l)) k <> 0).
  { rewrite counted_Counter. unfold occurrences. simpl.
    destruct (channel_eq_dec k k); [lia|contradiction]. }
  destruct (Counter (k :: l)) as [|[k0 n0] rest]; [now apply Hc|].
  simpl in H. destruct (most_common rest) as [[? ?]|];
    [destruct (n0 <? _)|]; discriminate.
Qed.

(** ** The chromatic rule *)

Lemma ratio_le a b d : a <= b -> (ratio a d <= ratio b d)%Q.
Proof.
  intros H. unfold ratio, Qle. simpl.
  apply Z.mul_le_mono_nonneg_r; lia.
Qed.

Lemma length_dominant_channels pixels :
  List.length (dominant_channels pixels) = count has_dominant pixels.
Proof.
  unfold dominant_channels, count.
  induction pixels as [|[[[r g] b] a] l IH]; simpl; [reflexivity|].
  rewrite length_app, IH.
  destruct (200 <? a)%Z; simpl; [|reflexivity].
  destruct (0 <? max3 r g b)%Z; simpl; [|reflexivity].
  destruct (r =? max3 r g b)%Z; [reflexivity|].
  destruct (g =? max3 r g b)%Z; reflexivity.
Qed.

Lemma single_hue_split im fd height pixels x y w h ch :
  match single_hue im fd height pixels x y w h ch with
  | Some _ => split_nondegenerate pixels
  | None => ~ split_nondegenerate pixels
  end.
Proof.
  unfold single_hue, split_nondegenerate.
  destruct (0 <? count is_bright_opaque pixels) eqn:Eb;
    destruct (0 <? count is_dark_opaque pixels) eqn:Ed; simpl;
    try (apply Nat.ltb_ge in Eb); try (apply Nat.ltb_ge in Ed);
    try lia.
  apply Nat.ltb_lt in Eb. apply Nat.ltb_lt in Ed.
  destruct (detect_spatial_pattern im x y w h);
    [| |destruct (Qlt_bool _ _)]; split; assumption.
Qed.

Lemma not_dominated_nil : ~ strictly_dominated [].
Proof. intros [ch H]. vm_compute in H. discriminate H. Qed.

Lemma chromatic_branch_type im fd height pixels x y w h :
  let p := chromatic_branch im fd height pixels x y w h in
  let single_hue_entered := strictly_dominated (dominant_channels pixels) in
  (type p = multi_color
   <-> ~ (single_hue_entered /\ split_nondegenerate pixels))
  /\ (type p = multi_color -> skip p = true)
  /\ (type p <> multi_color ->
      type p = chromatic_shadowed \/ type p = chromatic_outlined).
Proof.
  unfold chromatic_branch.
  set (doms := dominant_channels pixels).
  set (mc := ret_multi_color fd height _).
  assert (Hmc : forall P : Prop, ~ P ->
            (type mc = multi_color <-> ~ P)
            /\ (type mc = multi_color -> skip mc = true)
            /\ (type mc <> multi_color ->
                type mc = chromatic_shadowed \/ type mc = chromatic_outlined)).
  { intros P HP. simpl. repeat split; auto. intros N. now contradiction N. }
  destruct (most_common (Counter doms)) as [[ch cnt]|] eqn:E.
  - destruct (most_common_Counter _ _ _ E) as [Hn Hmax].
    destruct (Qlt_bool (8 # 10) (ratio cnt (List.length doms))) eqn:Q.
    + apply Qlt_bool_iff in Q.
      assert (Hd : strictly_dominated doms) by (exists ch; now rewrite <- Hn).
      pose proof (single_hue_split im fd height pixels x y w h ch) as Hs.
      destruct (single_hue im fd height pixels x y w h ch) as [p|] eqn:S.
      * destruct (single_hue_invariants _ _ _ _ _ _ _ _ _ _ S)
          as (_ & Ht & _ & Hc).
        cbv zeta. repeat split; try tauto.
      * apply Hmc. tauto.
    + apply Qlt_bool_false_iff in Q. apply Hmc. intros [[ch0 H0] _].
      apply (Qlt_not_le _ _ H0).
      eapply Qle_trans; [apply ratio_le, Hmax|exact Q].
  - apply most_common_none in E. apply Hmc. rewrite E.
    intros [H _]. exact (not_dominated_nil H).
Qed.

(** C3, as stated, fails in both directions.  In a sample of five
    chromatic pixels of which four have red as their dominant channel, the
    most common channel is exactly 80% of the chromatic pixels and both a
    bright and a dark pixel exist, yet the classifier answers
    [multi_color].  In a sample of nine whites, a dark green and a blue,
    no channel reaches 80% of the two chromatic pixels, yet the whites
    count for red and the classifier answers [chromatic_shadowed]. *)
Lemma exactly_eighty_percent_is_multi_color :
  (let pixels := sampled_pixels hue_sheet 0 0 5 1 in
   let p := analyze_font_pattern hue_sheet (font_A 5 1) 13 in
   (qnat (List.length pixels) * (1 # 10) < qnat (count is_chromatic pixels))%Q
   /\ ~ (type p = multi_color
         <-> ~ (spec_dominated (chromatic_dominant_channels pixels)
                /\ split_nondegenerate pixels)))
  /\ (let pixels := sampled_pixels mix_sheet 0 0 11 1 in
      let p := analyze_font_pattern mix_sheet (font_A 11 1) 13 in
      (qnat (List.length pixels) * (1 # 10) < qnat (count is_chromatic pixels))%Q
      /\ type p = chromatic_shadowed
      /\ ~ (type p = multi_color
            <-> ~ (spec_dominated (chromatic_dominant_channels pixels)
                   /\ split_nondegenerate pixels))).
Proof.
  split.
  - split; [vm_compute; reflexivity|].
    intros [H _]. apply H; [vm_compute; reflexivity|].
    split.
    + exists chR. vm_compute. discriminate.
    + split; vm_compute; lia.
  - split; [vm_compute; reflexivity|].
    split; [vm_compute; reflexivity|].
    intros [_ H].
    assert (E : type (analyze_font_pattern mix_sheet (font_A 11 1) 13) = multi_color).
    { apply H. intros [[ch Hd] _]. apply Hd.
      destruct ch; vm_compute; reflexivity. }
    vm_compute in E. discriminate E.
Qed.

(** C3, amended.  When chromatic pixels exceed 10% of the sampled pixels,
    the dominant channel is taken over all sampled pixels with alpha above
    200 and a non-zero maximum channel, and the single-hue branch is
    entered exactly when one channel accounts for strictly more than 80% of
    them; the result is [multi_color], with [skip] true, exactly when that
    test fails or one of the bright and dark populations is empty, and is
    [chromatic_shadowed] or [chromatic_outlined] otherwise. *)
Theorem chromatic_rule im fd height x y w h :
  sample_rect fd height = Some (x, y, w, h) ->
  let pixels := sampled_pixels im x y w h in
  (qnat (List.length pixels) * (1 # 10) < qnat (count is_chromatic pixels))%Q ->
  let doms := dominant_channels pixels in
  let p := analyze_font_pattern im fd height in
  List.length doms = count has_dominant pixels
  /\ (type p = multi_color
      <-> ~ (strictly_dominated doms /\ split_nondegenerate pixels))
  /\ (type p = multi_color -> skip p = true)
  /\ (type p <> multi_color ->
      type p = chromatic_shadowed \/ type p = chromatic_outlined).
Proof.
  intros Hrect pixels Hchrom doms p.
  split; [apply length_dominant_channels|].
  subst p. unfold analyze_font_pattern. rewrite Hrect.
  unfold classify_sample. fold pixels.
  destruct pixels as [|px0 rest] eqn:Ep.
  { vm_compute in Hchrom. discriminate Hchrom. }
  apply Qlt_bool_iff in Hchrom. rewrite Hchrom.
  apply chromatic_branch_type.
Qed.

Lemma chromatic_rule_witness :
  type (analyze_font_pattern shadow_sheet (font_A 10 10) 10) = chromatic_shadowed
  \/ type (analyze_font_pattern shadow_sheet (font_A 10 10) 10) = chromatic_outlined.
Proof.
  refine (proj2 (proj2 (proj2
    (chromatic_rule shadow_sheet (font_A 10 10) 10 0 0 10 10 eq_refl _))) _).
  - vm_compute. reflexivity.
  - vm_compute. discriminate.
Defined.

(** * Further properties *)

(** ** The forms of the classifier's result *)

Lemma count_le_length {A : Type} (f : A -> bool) (l : list A) :
  count f l <= List.length l.
Proof. unfold count. apply filter_length_le. Qed.

Lemma count_disjoint {A : Type} (f g : A -> bool) (l : list A) :
  (forall a, f a = true -> g a = false) ->
  count f l + count g l <= List.length l.
Proof.
  intros H. unfold count. induction l as [|a l IH]; simpl; [lia|].
  destruct (f a) eqn:Ef.
  - rewrite (H a Ef). simpl. lia.
  - destruct (g a); simpl; lia.
Qed.

Lemma bright_dark_disjoint p : is_bright_opaque p = true -> is_dark_opaque p = false.
Proof.
  destruct p as [[[r g] b] a]. simpl. intros H.
  apply andb_true_iff in H as [_ H]. apply Z.ltb_lt in H.
  apply andb_false_iff. right. apply Z.leb_gt. exact H.
Qed.

Lemma white_black_disjoint p : is_white p = true -> is_black p = false.
Proof.
  destruct p as [[[r g] b] a]. simpl. intros H.
  repeat (apply andb_true_iff in H as [H ?]). apply Z.ltb_lt in H.
  destruct (r <? 50)%Z eqn:E; [|reflexivity]. apply Z.ltb_lt in E. lia.
Qed.

(** Every result of the classifier has one of nine forms; a property that
    holds of each form holds of the result. *)
Lemma analyze_cases im fd height (P : pattern -> Prop) :
  P (bare unknown false) ->
  P (with_dims fd height (bare unknown false)) ->
  P (with_dims fd height (bare antialiased false)) ->
  P (with_dims fd height (bare monochrome_solid false)) ->
  (forall colors, P (ret_multi_color fd height colors)) ->
  (forall bright dark total ch,
     0 < bright -> 0 < dark -> bright + dark <= total ->
     P (ret_chromatic_shadowed fd height dark total ch)
     /\ P (ret_chromatic_outlined fd height bright dark total ch)) ->
  (forall white black total,
     0 < white -> 0 < black -> white + black <= total ->
     P (ret_outlined fd height white black total)) ->
  (forall black total,
     0 < black -> black <= total -> P (ret_shadowed fd height black total)) ->
  P (analyze_font_pattern im fd height).
Proof.
  intros Hbare Hunk Hanti Hmono Hmulti Hchrom Hout Hshad.
  unfold analyze_font_pattern.
  destruct (sample_rect fd height) as [[[[x y] w] h]|]; [|exact Hunk].
  unfold classify_sample.
  destruct (sampled_pixels im x y w h) as [|px0 rest] eqn:Ep; [exact Hbare|].
  set (pixels := px0 :: rest).
  destruct (Qlt_bool _ _).
  - unfold chromatic_branch.
    destruct (most_common _) as [[ch cnt]|]; [|apply Hmulti].
    destruct (Qlt_bool _ _); [|apply Hmulti].
    unfold single_hue.
    destruct (0 <? count is_bright_opaque pixels) eqn:Eb; [|apply Hmulti].
    destruct (0 <? count is_dark_opaque pixels) eqn:Ed; [|apply Hmulti].
    apply Nat.ltb_lt in Eb. apply Nat.ltb_lt in Ed. simpl andb. cbv iota.
    pose proof (count_disjoint is_bright_opaque is_dark_opaque pixels
                  bright_dark_disjoint) as Hsum.
    destruct (Hchrom _ _ _ ch Eb Ed Hsum) as [Hs Ho].
    destruct (detect_spatial_pattern im x y w h);
      [| |destruct (Qlt_bool _ _)]; assumption.
  - unfold achromatic_rules. fold pixels.
    destruct (0 <? count is_white pixels) eqn:Ew;
      destruct (0 <? count is_black pixels) eqn:Ek; simpl andb; cbv iota;
      try (apply Nat.ltb_lt in Ew); try (apply Nat.ltb_lt in Ek).
    all: split_classifier;
      first [ exact Hanti | exact Hmono | exact Hunk
            | apply Hshad; [assumption|apply count_le_length]
            | apply Hout; [assumption|assumption|
                           apply count_disjoint, white_black_disjoint] ].
Qed.

Lemma analyze_flags_match im fd height :
  flags_match_type (analyze_font_pattern im fd height).
Proof.
  apply analyze_cases; intros; try split; unfold flags_match_type; simpl;
    split; reflexivity.
Qed.

(** X5.  In every result of the classifier the removal flags go with the
    type: [remove_shadow] is set for [shadowed] and [chromatic_shadowed]
    and absent otherwise, [remove_outline] is set for [outlined] and
    [chromatic_outlined] and absent otherwise; the types [chromatic_bright]
    and [chromatic_shadowed_bright] are never returned. *)
Theorem classifier_flags_match_type im fd height :
  let p := analyze_font_pattern im fd height in
  flags_match_type p
  /\ type p <> chromatic_bright /\ type p <> chromatic_shadowed_bright
  /\ (remove_shadow p = Some true
      <-> type p = shadowed \/ type p = chromatic_shadowed)
  /\ (remove_outline p = Some true
      <-> type p = outlined \/ type p = chromatic_outlined).
Proof.
  intros p. pose proof (analyze_flags_match im fd height) as H. fold p in H.
  split; [exact H|]. unfold flags_match_type in H.
  destruct (type p); try contradiction; destruct H as [Hs Ho];
    rewrite Hs, Ho; repeat split; try discriminate; auto;
    intros [E|E]; discriminate E.
Qed.

Lemma pos_of_nat_Z total : 0 < total -> Z.pos (Pos.of_nat total) = Z.of_nat total.
Proof.
  intros H. rewrite <- (Nat2Pos.id total) at 2 by lia.
  now rewrite positive_nat_Z.
Qed.

Lemma ratio_fraction a total :
  0 < total -> a <= total -> (0 <= ratio a total /\ ratio a total <= 1)%Q.
Proof.
  intros Ht Ha. unfold ratio, Qle. cbn [Qnum Qden].
  rewrite (pos_of_nat_Z total Ht). lia.
Qed.

Lemma ratio_sum_fraction a b total :
  0 < total -> a + b <= total -> (ratio a total + ratio b total <= 1)%Q.
Proof.
  intros Ht Hab. unfold ratio, Qle, Qplus. cbn [Qnum Qden].
  rewrite Pos2Z.inj_mul, (pos_of_nat_Z total Ht). nia.
Qed.

Lemma ratio_positive a total : 0 < a -> (0 < ratio a total)%Q.
Proof. intros Ha. unfold ratio, Qlt. cbn [Qnum Qden]. lia. Qed.

(** X6.  Every ratio the classifier records lies between 0 and 1; when it
    records a [dark_ratio] that ratio is positive, and the dark and bright
    ratios of a [chromatic_outlined] result add up to at most 1. *)
Theorem recorded_ratios_are_fractions im fd height :
  let p := analyze_font_pattern im fd height in
  is_fraction (dark_ratio p) /\ is_fraction (bright_ratio p)
  /\ is_fraction (white_ratio p) /\ is_fraction (black_ratio p)
  /\ (forall d, dark_ratio p = Some d -> (0 < d)%Q)
  /\ (forall d b, dark_ratio p = Some d -> bright_ratio p = Some b ->
        (d + b <= 1)%Q).
Proof.
  apply analyze_cases; intros; try split; simpl;
    repeat split; try discriminate;
    try (apply ratio_fraction; lia);
    try (intros ? E; inversion E; subst; apply ratio_positive; lia);
    intros ? ? E1 E2; inversion E1; inversion E2; subst;
    rewrite Qplus_comm; apply ratio_sum_fraction; lia.
Qed.

(** ** The ink predicate of each type *)

Lemma is_inked_by_type thr p px :
  flag_set (remove_shadow p) = wants_shadow (type p) ->
  flag_set (remove_outline p) = wants_outline (type p) ->
  is_inked thr (Some p) px = ink_table (type p) (get_or (dark_ratio p) 0%Q) thr px.
Proof.
  destruct px as [[[r g] b] a]. unfold is_inked, ink_table.
  intros Hs Ho. rewrite Hs, Ho.
  destruct (type p) eqn:Et; simpl;
    destruct (thr <? a)%Z; simpl; trivial.
  unfold all_white, near_black.
  destruct (200 <? r)%Z eqn:E1; destruct (200 <? g)%Z eqn:E2;
    destruct (200 <? b)%Z eqn:E3; simpl; trivial.
  apply Z.ltb_lt in E1.
  destruct (r <? 50)%Z eqn:E4; [apply Z.ltb_lt in E4; lia|reflexivity].
Qed.

Lemma is_inked_flags_match thr p px :
  flags_match_type p ->
  is_inked thr (Some p) px = ink_table (type p) (get_or (dark_ratio p) 0%Q) thr px.
Proof.
  intros H. unfold flags_match_type in H.
  apply is_inked_by_type; destruct (type p); try contradiction;
    destruct H as [Hs Ho]; rewrite ?Hs, ?Ho; reflexivity.
Qed.

(** X3.  The pixels the extractor inks under a pattern returned by the
    classifier are decided by the pattern's type alone (and, for
    [chromatic_shadowed], its recorded [dark_ratio]): opaque and not
    near-black for [outlined] and [shadowed], opaque and brighter than 150
    for [chromatic_outlined], opaque for every other type. *)
Theorem classifier_ink_table im fd height threshold px :
  let p := analyze_font_pattern im fd height in
  is_inked threshold (Some p) px
  = ink_table (type p) (get_or (dark_ratio p) 0%Q) threshold px.
Proof.
  intros p. apply is_inked_flags_match.
  apply analyze_flags_match.
Qed.

(** X4.  On the main font a forced type other than [monochrome_solid] and
    [multi_color] decides the ink predicate by itself, whatever the
    classifier had found: the extractor inks exactly the pixels of the
    type's row of the ink table, the recorded [dark_ratio] (0 when the
    classifier recorded none) being read for [chromatic_shadowed] only.  On
    a subfont this holds for the forced types [antialiased] and [unknown],
    which ink every opaque pixel. *)
Theorem forced_type_ink_table p t threshold px :
  (t <> monochrome_solid -> t <> multi_color ->
   is_inked threshold (Some (force_main t p)) px
   = ink_table t (get_or (dark_ratio p) 0%Q) threshold px)
  /\ (t = antialiased \/ t = unknown ->
      is_inked threshold (Some (force_subfont t p)) px
      = (threshold <? alpha px)%Z).
Proof.
  split.
  - intros H1 H2.
    destruct (force_main_keeps t p) as (_ & _ & _ & _ & Hd & Ht).
    rewrite <- Hd. rewrite <- Ht at 2.
    apply is_inked_by_type; rewrite Ht; destruct t; try reflexivity; contradiction.
  - intros H.
    destruct (force_subfont_keeps t p) as (_ & _ & _ & _ & Hd & Ht).
    rewrite (is_inked_by_type threshold (force_subfont t p) px).
    + rewrite Ht. destruct px as [[[r g] b] a]. unfold ink_table, alpha. simpl.
      destruct H as [-> | ->]; apply andb_true_r.
    + rewrite Ht. destruct H as [-> | ->]; reflexivity.
    + rewrite Ht. destruct H as [-> | ->]; reflexivity.
Qed.

Lemma forced_type_ink_table_witness :
  is_inked default_threshold
    (Some (force_main chromatic_bright (bare shadowed false))) (opaque 0 0 0)
  = true.
Proof.
  rewrite (proj1 (forced_type_ink_table (bare shadowed false) chromatic_bright
                    default_threshold (opaque 0 0 0)));
    [reflexivity|discriminate|discriminate].
Defined.

(** ** Cells of an extracted glyph *)

Lemma get_extracted_cell im x y width height thr pat px py :
  px < width -> py < height ->
  String.get px (nth py (extract_glyph_pixels im x y width height thr pat) ""%string)
  = Some (cell_char im x y thr pat py px).
Proof.
  intros Hpx Hpy. unfold extract_glyph_pixels.
  replace ((width =? 0) || (height =? 0)) with false
    by (symmetry; apply orb_false_iff; split; apply Nat.eqb_neq; lia).
  unfold range0.
  rewrite nth_indep with (d' := extract_row im x y width thr pat 0)
    by now rewrite length_map, length_seq.
  rewrite map_nth, seq_nth by lia. simpl.
  rewrite get_row_chars, row_chars_extract_row.
  rewrite nth_error_map, nth_error_nth' with (d := 0) by now rewrite length_seq.
  rewrite seq_nth by lia. reflexivity.
Qed.

Lemma is_inked_alpha thr pat p : is_inked thr pat p = true -> (thr < alpha p)%Z.
Proof.
  destruct p as [[[r g] b] a]. unfold is_inked, alpha. simpl.
  destruct (thr <? a)%Z eqn:E; [intros _; now apply Z.ltb_lt|].
  destruct pat as [pt|]; [|discriminate].
  destruct (flag_set (remove_outline pt)); [discriminate|].
  destruct (flag_set (remove_shadow pt)); [discriminate|].
  destruct (font_type_eq_dec (type pt) chromatic_bright); discriminate.
Qed.

(** X1.  Inside a glyph of positive width and height, the character at
    column [px] of row [py] is ['@'] exactly when the imaging library
    returns a pixel for the position [(x + px, y + py)] (which it takes
    from the opposite edge when a coordinate is negative) and that pixel
    satisfies the ink predicate of the pattern, and ['.'] exactly in the
    other case: the library raises, or the pixel fails the predicate. *)
Theorem extracted_cell_is_ink_predicate im x y width height threshold pat px py :
  px < width -> py < height ->
  let c := String.get px
             (nth py (extract_glyph_pixels im x y width height threshold pat) ""%string) in
  (c = Some "@"%char
   <-> exists p, getpixel im (x + px) (y + py) = Some p
                 /\ is_inked threshold pat p = true)
  /\ (c = Some "."%char
      <-> getpixel im (x + px) (y + py) = None
          \/ exists p, getpixel im (x + px) (y + py) = Some p
                       /\ is_inked threshold pat p = false).
Proof.
  intros Hpx Hpy c. subst c. rewrite get_extracted_cell by assumption.
  unfold cell_char.
  destruct (getpixel im (x + px) (y + py)) as [p|].
  - destruct (is_inked threshold pat p) eqn:E.
    + split; split.
      * intros _. now exists p.
      * reflexivity.
      * discriminate.
      * intros [H|(q & Hq & Hi)]; [discriminate|]. congruence.
    + split; split.
      * discriminate.
      * intros (q & Hq & Hi). congruence.
      * intros _. right. now exists p.
      * reflexivity.
  - split; split.
    + discriminate.
    + intros (q & Hq & _). discriminate.
    + intros _. now left.
    + reflexivity.
Qed.

Lemma extracted_cell_is_ink_predicate_witness :
  String.get 0 (nth 0 (extract_glyph_pixels hue_sheet 0 0 5 1 default_threshold None)
                  ""%string) = Some "@"%char.
Proof.
  apply (proj1 (extracted_cell_is_ink_predicate hue_sheet 0 0 5 1
                  default_threshold None 0 0 ltac:(lia) ltac:(lia))).
  exists (opaque 255 0 0). split; reflexivity.
Defined.

(** X2.  Whatever pattern is passed, well formed or not, an ['@'] of an
    extracted glyph stands for a pixel that the imaging library returned
    for the position of the cell and whose alpha exceeds the threshold:
    nothing transparent is ever inked, and no position at which the
    library raises. *)
Theorem inked_cell_is_opaque im x y width height threshold pat px py :
  px < width -> py < height ->
  String.get px
    (nth py (extract_glyph_pixels im x y width height threshold pat) ""%string)
  = Some "@"%char ->
  exists r g b a,
    getpixel im (x + px) (y + py) = Some (r, g, b, a) /\ (threshold < a)%Z.
Proof.
  intros Hpx Hpy. rewrite get_extracted_cell by assumption.
  unfold cell_char.
  destruct (getpixel im (x + px) (y + py)) as [[[[r g] b] a]|]; [|discriminate].
  destruct (is_inked threshold pat (r, g, b, a)) eqn:E; [|discriminate].
  intros _. exists r, g, b, a. split; [reflexivity|].
  apply (is_inked_alpha _ _ _ E).
Qed.

Lemma inked_cell_is_opaque_witness :
  exists r g b a,
    getpixel hue_sheet (0 + 0) (0 + 0) = Some (r, g, b, a)
    /\ (default_threshold < a)%Z.
Proof.
  apply (inked_cell_is_opaque hue_sheet 0 0 5 1 default_threshold None 0 0);
    [lia|lia|reflexivity].
Defined.

(** ** The sampled glyph *)

Lemma get_in {V : Type} (d : list (string * V)) key v :
  get d key = Some v -> In (key, v) d.
Proof.
  induction d as [|[k w] rest IH]; simpl; [discriminate|].
  destruct (String.eqb_spec key k) as [->|N].
  - intros H. inversion H. now left.
  - intros H. right. now apply IH.
Qed.

Lemma with_x_some v d : with_x v = Some d -> v = JDict d /\ g_x d <> None.
Proof.
  destruct v as [d'|]; simpl; [|discriminate].
  destruct (g_x d') eqn:E; [|discriminate].
  intros H. inversion H; subst. split; [reflexivity|congruence].
Qed.

Lemma first_sample_in fd codes d :
  first_sample fd codes = Some d ->
  exists c, In c codes /\ In (c, JDict d) fd /\ g_x d <> None.
Proof.
  induction codes as [|c rest IH]; simpl; [discriminate|].
  destruct (get fd c) as [v|] eqn:G.
  - destruct (with_x v) as [d'|] eqn:W.
    + intros H. inversion H; subst. apply with_x_some in W as [-> Hx].
      exists c. split; [now left|]. split; [now apply get_in|exact Hx].
    + intros H. destruct (IH H) as (c' & ? & ? & ?). exists c'. auto.
  - intros H. destruct (IH H) as (c' & ? & ? & ?). exists c'. auto.
Qed.

Lemma any_sample_in entries d :
  any_sample entries = Some d ->
  exists k, In (k, JDict d) entries /\ is_metadata_key k = false /\ g_x d <> None.
Proof.
  induction entries as [|[k v] rest IH]; simpl; [discriminate|].
  destruct (is_metadata_key k) eqn:M.
  - intros H. destruct (IH H) as (k' & ? & ? & ?). exists k'. auto.
  - destruct (with_x v) as [d'|] eqn:W.
    + intros H. inversion H; subst. apply with_x_some in W as [-> Hx].
      exists k. auto.
    + intros H. destruct (IH H) as (k' & ? & ? & ?). exists k'. auto.
Qed.

Lemma any_sample_complete entries k d :
  In (k, JDict d) entries -> is_metadata_key k = false -> g_x d <> None ->
  any_sample entries <> None.
Proof.
  induction entries as [|[k' v] rest IH]; simpl; [contradiction|].
  intros [Heq|Hin] M Hx.
  - inversion Heq; subst. rewrite M. simpl.
    destruct (g_x d); [discriminate|contradiction].
  - destruct (is_metadata_key k'); [now apply IH|].
    destruct (with_x v); [discriminate|now apply IH].
Qed.

Lemma in_glyph_entries fd k d :
  In (k, d) (glyph_entries fd) <-> In (k, JDict d) fd /\ is_metadata_key k = false.
Proof.
  unfold glyph_entries. rewrite in_flat_map. split.
  - intros ([k' v] & Hin & H). simpl in H. destruct v as [d'|]; [|contradiction].
    destruct (is_metadata_key k') eqn:M; [contradiction|].
    destruct H as [H|[]]. inversion H; subst. auto.
  - intros [Hin M]. exists (k, JDict d). split; [exact Hin|].
    simpl. rewrite M. now left.
Qed.

Lemma sample_rect_resolve fd height cd :
  char_data_of fd = Some cd ->
  sample_rect fd height = Some (resolve (defaults_of fd) height cd).
Proof.
  intros H. unfold sample_rect, resolve. rewrite H.
  destruct (g_w cd); [reflexivity|].
  destruct (g_w (defaults_of fd)); reflexivity.
Qed.

(** X7.  The rectangle the classifier samples is the rectangle the emitter
    extracts for one glyph entry of the table, an entry that has an [x]:
    the entry ['65'] whenever that one is a glyph with an [x].  A table
    that gives the emitter at least one character always has a sample, and
    a table without a sample yields an empty glyph section. *)
Theorem sample_is_an_emitted_rectangle im fd height pat :
  (forall rect, sample_rect fd height = Some rect ->
     exists k cd, In (k, JDict cd) fd /\ g_x cd <> None
                  /\ rect = resolve (defaults_of fd) height cd)
  /\ (forall d, get fd "65"%string = Some (JDict d) -> g_x d <> None ->
        sample_rect fd height = Some (resolve (defaults_of fd) height d))
  /\ (chars_of fd <> [] -> sample_rect fd height <> None)
  /\ (sample_rect fd height = None ->
      generate_font_section im fd height pat = ([], 0)).
Proof.
  assert (Hchars : chars_of fd <> [] -> char_data_of fd <> None).
  { intros Hne. unfold char_data_of.
    destruct (first_sample fd sample_chars); [discriminate|].
    destruct (chars_of fd) as [|[c d] rest] eqn:E; [contradiction|].
    assert (Hin : In (c, d) (chars_of fd)) by (rewrite E; now left).
    unfold chars_of in Hin. apply in_flat_map in Hin as ([k d'] & Hk & Hin).
    simpl in Hin. destruct (g_x d') eqn:Ex; [|contradiction].
    apply in_glyph_entries in Hk as [Hk M].
    eapply any_sample_complete; eauto. congruence. }
  split; [|split; [|split]].
  - intros rect H.
    destruct (char_data_of fd) as [cd|] eqn:E;
      [|unfold sample_rect in H; rewrite E in H; discriminate].
    rewrite (sample_rect_resolve fd height cd E) in H. inversion H; subst. clear H.
    unfold char_data_of in E.
    destruct (first_sample fd sample_chars) as [d|] eqn:F.
    + inversion E; subst. destruct (first_sample_in _ _ _ F) as (c & _ & Hin & Hx).
      exists c, cd. auto.
    + destruct (any_sample_in _ _ E) as (k & Hin & _ & Hx).
      exists k, cd. auto.
  - intros d G Hx. apply sample_rect_resolve.
    unfold char_data_of, sample_chars. simpl. rewrite G. simpl.
    destruct (g_x d); [reflexivity|contradiction].
  - intros Hne H. apply (Hchars Hne). unfold sample_rect in H.
    destruct (char_data_of fd); [discriminate|reflexivity].
  - intros H. unfold generate_font_section.
    destruct (chars_of fd) as [|e rest] eqn:E; [reflexivity|].
    exfalso. apply Hchars; [discriminate|]. unfold sample_rect in H.
    destruct (char_data_of fd); [discriminate|reflexivity].
Qed.

Lemma sample_is_an_emitted_rectangle_witness :
  sample_rect font_AB 13 = Some (0%Z, 0%Z, 5, 1).
Proof.
  apply (proj1 (proj2 (sample_is_an_emitted_rectangle hue_sheet font_AB 13 None))
           {| g_x := Some 0%Z; g_y := Some 0%Z; g_w := Some 5; g_h := Some 1;
              g_right_bearing := None |}).
  - reflexivity.
  - discriminate.
Defined.

(** ** The documents of a run *)

Section Documents.

Variable im : image.
Variable db : list (string * game_meta).
Variable json_filename png_filename : string.
Variable title_case : string -> string.

Let run := generate_yaff im db json_filename png_filename title_case.
Let run_subfont := generate_subfont im db json_filename png_filename title_case.

Lemma subfont_families height game_name base_font_name subfonts :
  map doc_family (flat_map (run_subfont height game_name base_font_name) subfonts)
  = map (fun sf => subfont_key game_name (fst sf))
        (filter (fun sf => negb (subfont_skipped im height sf)) subfonts).
Proof.
  induction subfonts as [|[name [own sub]] rest IH]; simpl; [reflexivity|].
  rewrite map_app, IH. unfold subfont_skipped, run_subfont, generate_subfont.
  simpl. unfold subfont_pattern.
  destruct (apply_subfont_override_keeps game_name name
              (analyze_font_pattern im sub (get_or own height))) as (Hs & _).
  rewrite Hs.
  destruct (skip (analyze_font_pattern im sub (get_or own height)));
    reflexivity.
Qed.

(** X8.  A run writes nothing at all when the classifier finds the main
    font multi-coloured, subfonts included; otherwise it writes the main
    document first, under the game name, and then one document for each
    subfont the classifier does not find multi-coloured, in the order of
    the table and under the key [game-subfont]. *)
Theorem documents_of_a_run fd subfonts height game_name base_font_name :
  let auto := analyze_font_pattern im fd height in
  (type auto = multi_color ->
   run fd subfonts height game_name base_font_name = [])
  /\ (type auto <> multi_color ->
      exists doc rest,
        run fd subfonts height game_name base_font_name = doc :: rest
        /\ doc_family doc = game_name
        /\ map doc_family rest
           = map (fun sf => subfont_key game_name (fst sf))
                 (filter (fun sf => negb (subfont_skipped im height sf)) subfonts)
        /\ (forall sf, subfont_skipped im height sf = true
                       <-> type (analyze_font_pattern im (snd (snd sf))
                                   (get_or (fst (snd sf)) height)) = multi_color)).
Proof.
  intros auto. unfold run, generate_yaff, main_pattern. fold auto.
  destruct (apply_main_override_keeps game_name auto) as (Hs & _).
  destruct (analyze_invariants im fd height) as [Hiff _]. fold auto in Hiff.
  rewrite Hs. split.
  - intros Ht. apply Hiff in Ht. now rewrite Ht.
  - intros Ht. destruct (skip auto) eqn:E; [exfalso; apply Ht; now apply Hiff|].
    eexists. eexists. split; [reflexivity|]. split; [reflexivity|].
    split; [apply subfont_families|].
    intros sf. unfold subfont_skipped. apply analyze_invariants.
Qed.

Lemma in_yaff_header_type font_name family_name height pat game_id :
  In ("# Font type: " ++ type_name (type pat))%string
     (yaff_header db json_filename png_filename
        font_name family_name height pat game_id).
Proof.
  unfold yaff_header. apply in_or_app. right. apply in_or_app. right.
  apply in_or_app. left. now left.
Qed.

(** X9.  The header of the main document announces the type in effect: the
    forced type when the game has an override entry, whatever the
    classifier found, and the classified type otherwise; that type is also
    the type of the pattern the glyphs are extracted with. *)
Theorem header_announces_type_in_effect fd subfonts height game_name base_font_name :
  let auto := analyze_font_pattern im fd height in
  type auto <> multi_color ->
  exists doc rest,
    run fd subfonts height game_name base_font_name = doc :: rest
    /\ type (doc_pattern doc) = type_in_effect game_name (type auto)
    /\ In ("# Font type: "
           ++ type_name (type_in_effect game_name (type auto)))%string
          (doc_lines doc).
Proof.
  intros auto Ht. unfold run, generate_yaff, main_pattern. fold auto.
  destruct (apply_main_override_keeps game_name auto) as (Hs & _).
  destruct (analyze_invariants im fd height) as [Hiff _]. fold auto in Hiff.
  rewrite Hs.
  destruct (skip auto) eqn:E; [exfalso; apply Ht; now apply Hiff|].
  assert (Hty : type (apply_main_override game_name auto)
                = type_in_effect game_name (type auto)).
  { unfold apply_main_override, type_in_effect.
    destruct (get FONT_TYPE_OVERRIDES game_name) as [t|]; [|reflexivity].
    apply force_main_keeps. }
  eexists. eexists. split; [reflexivity|]. split; [exact Hty|].
  unfold emit, write_single_yaff. cbn [doc_lines fst].
  apply in_or_app. left. rewrite <- Hty. apply in_yaff_header_type.
Qed.

End Documents.

Lemma documents_of_a_run_witness :
  generate_yaff hue_sheet [] "a.json" "a.png" (fun s => s)
    (font_A 5 1) [("red"%string, (None, font_A 5 1))] 13 "mw" "Mw" = [].
Proof.
  apply (proj1 (documents_of_a_run hue_sheet [] "a.json" "a.png" (fun s => s)
                  (font_A 5 1) [("red"%string, (None, font_A 5 1))] 13 "mw" "Mw")).
  reflexivity.
Defined.

Lemma header_announces_type_in_effect_witness :
  exists doc rest,
    generate_yaff gray_sheet [] "a.json" "a.png" (fun s => s)
      (font_A 10 1) [] 13 "quake" "Quake" = doc :: rest
    /\ type (doc_pattern doc) = shadowed
    /\ In "# Font type: shadowed"%string (doc_lines doc).
Proof.
  apply (header_announces_type_in_effect gray_sheet [] "a.json" "a.png" (fun s => s)
           (font_A 10 1) [] 13 "quake" "Quake").
  vm_compute. discriminate.
Defined.

(** ** Tags *)

Lemma expected_codepoint_nonneg c : (0 <= c)%Z -> (0 <= expected_codepoint c)%Z.
Proof.
  intros H. unfold expected_codepoint.
  destruct (c =? 145)%Z; [lia|]. destruct (c =? 146)%Z; lia.
Qed.

(** X10.  Two non-negative source codes are announced under the same tag
    digits only when they are equal or when one is a remapped quote and the
    other the codepoint it is remapped to: 145 with 8216 (U+2018), 146 with
    8217 (U+2019). *)
Theorem tag_collisions c c' :
  (0 <= c)%Z -> (0 <= c')%Z ->
  (format_04x (get_unicode_codepoint c) = format_04x (get_unicode_codepoint c')
   <-> c = c'
       \/ (c = 145 /\ c' = 8216)%Z \/ (c = 8216 /\ c' = 145)%Z
       \/ (c = 146 /\ c' = 8217)%Z \/ (c = 8217 /\ c' = 146)%Z).
Proof.
  intros Hc Hc'. rewrite !get_unicode_codepoint_cases. split.
  - intros H. apply (f_equal read_04x) in H.
    rewrite !read_04x_format in H by now apply expected_codepoint_nonneg.
    inversion H as [E]. clear H. unfold expected_codepoint in E.
    destruct (Z.eqb_spec c 145); destruct (Z.eqb_spec c' 145);
      destruct (Z.eqb_spec c 146); destruct (Z.eqb_spec c' 146); lia.
  - intros [->|[[-> ->]|[[-> ->]|[[-> ->]|[-> ->]]]]]; reflexivity.
Qed.

Lemma tag_collisions_witness :
  format_04x (get_unicode_codepoint 145) = format_04x (get_unicode_codepoint 8216).
Proof.
  apply (proj2 (tag_collisions 145 8216 ltac:(lia) ltac:(lia))).
  right. left. split; reflexivity.
Defined.

Lemma count_app {A : Type} (f : A -> bool) (l l' : list A) :
  count f (l ++ l') = count f l + count f l'.
Proof. unfold count. now rewrite filter_app, length_app. Qed.

Lemma count_indented (prefix : string) (rows : list string) :
  String.prefix prefix "    "%string = false ->
  (forall s, String.prefix prefix (indent s) = false) ->
  count (String.prefix prefix) (map indent rows) = 0.
Proof.
  intros _ H. unfold count. induction rows as [|r rows IH]; [reflexivity|].
  cbn [map filter]. rewrite H. exact IH.
Qed.

Lemma count_cons {A : Type} (f : A -> bool) (a : A) (l : list A) :
  count f (a :: l) = (if f a then 1 else 0) + count f l.
Proof. unfold count. simpl. destruct (f a); reflexivity. Qed.

Lemma prefix_empty (s : string) : String.prefix "" s = true.
Proof. now destruct s. Qed.

Lemma tags_of_block im dflt height pat c :
  count (String.prefix "u+") (emit_glyph im dflt height pat c) = 1.
Proof.
  destruct c as [code d]. unfold emit_glyph.
  destruct (resolve dflt height d) as [[[x y] w] h].
  cbn [app]. rewrite !count_cons, !count_app.
  replace (String.prefix "u+"
             ("# Character: " ++ character_label (get_unicode_codepoint code)))
    with false by reflexivity.
  change (String.prefix "u+"
            ("u+" ++ format_04x (get_unicode_codepoint code) ++ ":"))
    with (String.prefix "" (format_04x (get_unicode_codepoint code) ++ ":")).
  rewrite prefix_empty.
  rewrite count_indented by reflexivity.
  destruct (h <? height); destruct (g_right_bearing d); reflexivity.
Qed.

(** X11.  The glyph section holds exactly one tag line (a line that starts
    with [u+]) per character it reports: the count returned with the
    section is the number of its tags. *)
Theorem one_tag_per_character im fd height pat :
  count (String.prefix "u+") (fst (generate_font_section im fd height pat))
  = snd (generate_font_section im fd height pat)
  /\ snd (generate_font_section im fd height pat) = List.length (chars_of fd).
Proof.
  unfold generate_font_section. simpl. split.
  - induction (sort_chars (chars_of fd)) as [|c l IH]; simpl; [reflexivity|].
    rewrite count_app, tags_of_block, IH. reflexivity.
  - apply Permutation_length, sort_chars_perm.
Qed.

(** ** Metric lines *)

Lemma nat_to_uint_nonnil n : Nat.to_uint n <> Decimal.Nil.
Proof.
  pose proof (DecimalNat.Unsigned.to_of (Nat.to_uint n)) as H.
  rewrite DecimalNat.Unsigned.of_to in H. rewrite H.
  apply DecimalFacts.unorm_nonnil.
Qed.

(** Printing a natural number loses nothing. *)
Lemma str_nat_inj n m : str_nat n = str_nat m -> n = m.
Proof.
  unfold str_nat. intros H. apply DecimalNat.Unsigned.to_uint_inj.
  apply (f_equal DecimalString.NilZero.uint_of_string) in H.
  rewrite !DecimalString.NilZero.usu in H by apply nat_to_uint_nonnil.
  congruence.
Qed.

Lemma str_Z_inj a b : str_Z a = str_Z b -> a = b.
Proof.
  unfold str_Z. intros H. apply DecimalZ.to_int_inj.
  assert (N : forall z, Z.to_int z <> Decimal.Pos Decimal.Nil
                        /\ Z.to_int z <> Decimal.Neg Decimal.Nil).
  { intros [|p|p]; simpl; split; intros E; inversion E;
      eapply DecimalPos.Unsigned.to_uint_nonnil; eassumption. }
  apply (f_equal DecimalString.NilZero.int_of_string) in H.
  rewrite !DecimalString.NilZero.isi in H by apply N.
  congruence.
Qed.

Lemma indent_inj s t : indent s = indent t -> s = t.
Proof. unfold indent. simpl. intros H. now inversion H. Qed.

Lemma in_map_indent s rows : In (indent s) (map indent rows) -> In s rows.
Proof.
  intros H. apply in_map_iff in H as (t & E & Hin).
  apply indent_inj in E. now subst.
Qed.

(** A row of a glyph is the sentinel or a run of ['@'] and ['.']. *)
Lemma extracted_rows_alphabet im x y w h thr pat s :
  In s (extract_glyph_pixels im x y w h thr pat) ->
  s = "-"%string \/ Forall (fun c => c = "@"%char \/ c = "."%char) (row_chars s).
Proof.
  unfold extract_glyph_pixels.
  destruct ((w =? 0) || (h =? 0)).
  - intros [<-|[]]. now left.
  - intros H. apply in_map_iff in H as (py & <- & _). right.
    rewrite row_chars_extract_row. apply Forall_forall.
    intros c Hc. apply in_map_iff in Hc as (px & <- & _).
    apply cell_char_alphabet.
Qed.

Lemma word_is_no_row im x y w h thr pat (c : ascii) (rest : string) :
  c <> "-"%char -> c <> "@"%char -> c <> "."%char ->
  ~ In (String c rest) (extract_glyph_pixels im x y w h thr pat).
Proof.
  intros N1 N2 N3 H. apply extracted_rows_alphabet in H as [E|F].
  - inversion E. contradiction.
  - unfold row_chars in F. simpl in F. inversion F as [|? ? [E|E] _]; contradiction.
Qed.

(** X12.  The block of a glyph carries the line [shift-up: n] exactly when
    the glyph is shorter than the font, and then [n] is the difference of
    the two heights; it carries the line [right-bearing: v] exactly when
    the glyph entry has that key with value [v]. *)
Theorem metric_lines im dflt height pat code d :
  let h := snd (resolve dflt height d) in
  let block := emit_glyph im dflt height pat (code, d) in
  (forall n, In (indent ("shift-up: " ++ str_nat n)) block
             <-> h < height /\ n = height - h)
  /\ (forall v, In (indent ("right-bearing: " ++ str_Z v)) block
                <-> g_right_bearing d = Some v).
Proof.
  unfold emit_glyph.
  destruct (resolve dflt height d) as [[[x y] w] h]. cbn [snd app].
  split.
  - intros n. split.
    + intros [E|[E|H]]; [discriminate E|discriminate E|].
      apply in_app_iff in H as [H|H].
      { apply in_map_indent in H. exfalso. revert H.
        apply word_is_no_row; discriminate. }
      apply in_app_iff in H as [H|H].
      { destruct (h <? height) eqn:L; [|contradiction].
        destruct H as [E|[E|[]]]; [discriminate E|].
        apply indent_inj in E. simpl in E. inversion E as [E'].
        apply str_nat_inj in E'. apply Nat.ltb_lt in L. split; [exact L|congruence]. }
      apply in_app_iff in H as [H|H].
      { destruct (g_right_bearing d); [|contradiction].
        destruct (h <? height); simpl in H;
          repeat (destruct H as [E|H]; [discriminate E|]); contradiction. }
      destruct H as [E|[]]. discriminate E.
    + intros [L ->]. right. right. apply in_or_app. right.
      apply in_or_app. left. apply Nat.ltb_lt in L. rewrite L.
      right. now left.
  - intros v. split.
    + intros [E|[E|H]]; [discriminate E|discriminate E|].
      apply in_app_iff in H as [H|H].
      { apply in_map_indent in H. exfalso. revert H.
        apply word_is_no_row; discriminate. }
      apply in_app_iff in H as [H|H].
      { destruct (h <? height); [|contradiction].
        destruct H as [E|[E|[]]]; discriminate E. }
      apply in_app_iff in H as [H|H].
      { destruct (g_right_bearing d) as [rb|]; [|contradiction].
        assert (E : indent ("right-bearing: " ++ str_Z rb)
                    = indent ("right-bearing: " ++ str_Z v)).
        { destruct (h <? height); simpl in H;
            repeat (destruct H as [E|H]; [exact E || discriminate E|]);
            contradiction. }
        apply indent_inj in E. simpl in E. inversion E as [E'].
        apply str_Z_inj in E'. now subst. }
      destruct H as [E|[]]. discriminate E.
    + intros ->. right. right. apply in_or_app. right.
      apply in_or_app. right. apply in_or_app. left.
      destruct (h <? height); simpl; auto.
Qed.

(** ** Reserved keys *)

Lemma get_insert {V : Type} (d1 d2 : list (string * V)) k v key :
  key <> k -> get (d1 ++ (k, v) :: d2) key = get (d1 ++ d2) key.
Proof.
  intros N. induction d1 as [|[k1 v1] d1 IH]; simpl.
  - destruct (String.eqb_spec key k); [contradiction|reflexivity].
  - now rewrite IH.
Qed.

Lemma glyph_entries_insert fd1 fd2 k v :
  is_metadata_key k = true ->
  glyph_entries (fd1 ++ (k, v) :: fd2) = glyph_entries (fd1 ++ fd2).
Proof.
  intros M. unfold glyph_entries. rewrite !flat_map_app. f_equal.
  simpl. rewrite M. now destruct v.
Qed.

Lemma any_sample_insert fd1 fd2 k v :
  is_metadata_key k = true ->
  any_sample (fd1 ++ (k, v) :: fd2) = any_sample (fd1 ++ fd2).
Proof.
  intros M. induction fd1 as [|[k1 v1] fd1 IH]; simpl.
  - now rewrite M.
  - now rewrite IH.
Qed.

Lemma first_sample_insert fd1 fd2 k v codes :
  ~ In k codes ->
  first_sample (fd1 ++ (k, v) :: fd2) codes = first_sample (fd1 ++ fd2) codes.
Proof.
  induction codes as [|c rest IH]; simpl; intros N; [reflexivity|].
  rewrite get_insert by (intros E; apply N; now left).
  rewrite IH by (intros H; apply N; now right). reflexivity.
Qed.

Lemma metadata_key_is_no_sample k : is_metadata_key k = true -> ~ In k sample_chars.
Proof.
  intros M [E|[E|[E|[]]]]; subst k; vm_compute in M; discriminate M.
Qed.

(** The classification reads the table through the sample and the three
    dimension values only. *)
Lemma analyze_ext im fd fd' height :
  sample_rect fd' height = sample_rect fd height ->
  is_monospace_of fd' = is_monospace_of fd ->
  max_width_of fd' height = max_width_of fd height ->
  max_height_of fd' height = max_height_of fd height ->
  analyze_font_pattern im fd' height = analyze_font_pattern im fd height.
Proof.
  intros H1 H2 H3 H4.
  unfold analyze_font_pattern, classify_sample, chromatic_branch, single_hue,
    achromatic_rules, ret_chromatic_shadowed, ret_chromatic_outlined,
    ret_multi_color, ret_outlined, ret_shadowed, with_dims.
  rewrite H1, H2, H3, H4. reflexivity.
Qed.

(** X13.  An entry under a reserved key other than [default], [height]
    and [subfonts], wherever it stands in the table and whatever its
    value, changes nothing of a run: neither the classification, nor the
    glyph section, nor the coverage labels, nor the documents written.
    The three keys left out are the reserved keys that the program reads:
    [default] in these functions, [height] and [subfonts] in
    [generate_yaff], which passes their values on. *)
Theorem reserved_entry_is_ignored im fd1 fd2 k v height pat :
  is_metadata_key k = true ->
  k <> "default"%string -> k <> "height"%string -> k <> "subfonts"%string ->
  let fd := fd1 ++ fd2 in
  let fd' := fd1 ++ (k, v) :: fd2 in
  analyze_font_pattern im fd' height = analyze_font_pattern im fd height
  /\ generate_font_section im fd' height pat = generate_font_section im fd height pat
  /\ analyze_character_coverage fd' = analyze_character_coverage fd
  /\ (forall db json_filename png_filename title_case subfonts game_name base_font_name,
        generate_yaff im db json_filename png_filename title_case
          fd' subfonts height game_name base_font_name
        = generate_yaff im db json_filename png_filename title_case
            fd subfonts height game_name base_font_name).
Proof.
  intros M N _ _ fd fd'.
  assert (Hg : glyph_entries fd' = glyph_entries fd)
    by now apply glyph_entries_insert.
  assert (Hd : defaults_of fd' = defaults_of fd).
  { unfold defaults_of, fd', fd. rewrite get_insert; [reflexivity|].
    intros E. apply N. now symmetry. }
  assert (Ha : analyze_font_pattern im fd' height = analyze_font_pattern im fd height).
  { apply analyze_ext.
    - unfold sample_rect, char_data_of, fd', fd.
      rewrite first_sample_insert by now apply metadata_key_is_no_sample.
      rewrite any_sample_insert by assumption. fold fd fd'. now rewrite Hd.
    - unfold is_monospace_of, widths_of. now rewrite Hg, Hd.
    - unfold max_width_of, widths_of. now rewrite Hg, Hd.
    - unfold max_height_of, heights_of. now rewrite Hg, Hd. }
  assert (Hs : forall q, generate_font_section im fd' height q
                         = generate_font_section im fd height q).
  { intros q. unfold generate_font_section, chars_of. now rewrite Hg, Hd. }
  split; [exact Ha|]. split; [apply Hs|]. split.
  - unfold analyze_character_coverage, codepoints_of, coverage_codes.
    now rewrite Hg.
  - intros. unfold generate_yaff, main_pattern, emit, write_single_yaff.
    now rewrite Ha, Hs.
Qed.

Lemma reserved_entry_is_ignored_witness :
  analyze_font_pattern hue_sheet
    (font_A 5 1 ++ [("notes"%string, glyph_at 0 0 9 9)]) 13
  = analyze_font_pattern hue_sheet (font_A 5 1 ++ []) 13.
Proof.
  apply (proj1 (reserved_entry_is_ignored hue_sheet (font_A 5 1) []
                  "notes" (glyph_at 0 0 9 9) 13 None eq_refl
                  ltac:(discriminate) ltac:(discriminate) ltac:(discriminate))).
Defined.

(** ** Coverage labels *)

Lemma coverage_labels_nil : coverage_labels [] = [].
Proof. reflexivity. Qed.

Lemma analyze_character_coverage_eq fd :
  analyze_character_coverage fd = coverage_labels (codepoints_of fd).
Proof.
  unfold analyze_character_coverage. now destruct (codepoints_of fd).
Qed.

Lemma count_nodup_incl (f : Z -> bool) (l l' : list Z) :
  incl l l' -> count f (nodup Z.eq_dec l) <= count f (nodup Z.eq_dec l').
Proof.
  intros H. unfold count. apply NoDup_incl_length.
  - apply NoDup_filter, NoDup_nodup.
  - intros c Hc. apply filter_In in Hc as [Hc Hf]. apply nodup_In in Hc.
    apply filter_In. split; [|exact Hf]. apply nodup_In. now apply H.
Qed.

Lemma existsb_nodup (f : Z -> bool) (l : list Z) :
  existsb f (nodup Z.eq_dec l) = true <-> exists c, In c l /\ f c = true.
Proof.
  rewrite existsb_exists. split; intros (c & Hc & Hf); exists c; split; trivial;
    now apply nodup_In in Hc || apply nodup_In.
Qed.

Lemma existsb_nodup_incl (f : Z -> bool) (l l' : list Z) :
  incl l l' -> existsb f (nodup Z.eq_dec l) = true ->
  existsb f (nodup Z.eq_dec l') = true.
Proof.
  intros H E. apply existsb_nodup in E as (c & Hc & Hf).
  apply existsb_nodup. exists c. auto.
Qed.

Lemma threshold_mono n a b : a <= b -> (n <=? a) = true -> (n <=? b) = true.
Proof. intros H E. apply Nat.leb_le in E. apply Nat.leb_le. lia. Qed.

(** X15.  Coverage grows with the codepoint set: when every codepoint of
    one table is a codepoint of another, every label of the first other
    than [upper] is a label of the second. *)
Theorem coverage_is_monotone fd fd' label :
  incl (coverage_codes fd) (coverage_codes fd') ->
  label <> "upper"%string ->
  In label (analyze_character_coverage fd) ->
  In label (analyze_character_coverage fd').
Proof.
  intros Hincl Hup. rewrite !analyze_character_coverage_eq.
  unfold codepoints_of.
  set (cps := nodup Z.eq_dec (coverage_codes fd)).
  set (cps' := nodup Z.eq_dec (coverage_codes fd')).
  assert (Hc : forall f, count f cps <= count f cps')
    by (intros f; now apply count_nodup_incl).
  unfold coverage_labels. intros H.
  repeat (apply in_app_iff in H; destruct H as [H|H]);
    unfold label_if in H;
    match type of H with
    | In _ (if ?t then _ else _) => destruct t eqn:E; [|contradiction]
    end;
    destruct H as [<-|[]]; try (now contradiction Hup);
    match type of E with
    | (?n <=? count ?f cps) = true =>
        assert (E' : (n <=? count f cps') = true)
          by (apply (threshold_mono n _ _ (Hc f) E));
        unfold label_if; pick_label E'
    | (?n <=? count ?f cps + count ?g cps) = true =>
        assert (E' : (n <=? count f cps' + count g cps') = true)
          by (apply (threshold_mono n _ _
                       (Nat.add_le_mono _ _ _ _ (Hc f) (Hc g)) E));
        unfold label_if; pick_label E'
    end.
Qed.

Lemma coverage_is_monotone_witness :
  In "greek"%string
     (analyze_character_coverage (font_greek ++ font_A 5 1)).
Proof.
  apply (coverage_is_monotone font_greek (font_greek ++ font_A 5 1) "greek").
  - intros c Hc. vm_compute in Hc. vm_compute. tauto.
  - discriminate.
  - vm_compute. now left.
Defined.

Lemma count_same_codes (f : Z -> bool) (l l' : list Z) :
  (forall c, In c l <-> In c l') ->
  count f (nodup Z.eq_dec l) = count f (nodup Z.eq_dec l').
Proof.
  intros H. apply Nat.le_antisymm; apply count_nodup_incl;
    intros c Hc; now apply H.
Qed.

Lemma existsb_same_codes (f : Z -> bool) (l l' : list Z) :
  (forall c, In c l <-> In c l') ->
  existsb f (nodup Z.eq_dec l) = existsb f (nodup Z.eq_dec l').
Proof.
  intros H.
  destruct (existsb f (nodup Z.eq_dec l)) eqn:E;
    destruct (existsb f (nodup Z.eq_dec l')) eqn:E'; trivial.
  - rewrite (existsb_nodup_incl f l l') in E'; [discriminate|intros c Hc; now apply H|exact E].
  - rewrite (existsb_nodup_incl f l' l) in E; [discriminate|intros c Hc; now apply H|exact E'].
Qed.

(** X16.  The coverage labels depend on the set of codepoints alone: two
    tables whose glyph keys denote the same codepoints, in whatever order
    and however often, get the same labels. *)
Theorem coverage_depends_on_code_set fd fd' :
  (forall c, In c (coverage_codes fd) <-> In c (coverage_codes fd')) ->
  analyze_character_coverage fd = analyze_character_coverage fd'.
Proof.
  intros H. rewrite !analyze_character_coverage_eq. unfold codepoints_of, coverage_labels.
  rewrite !(existsb_same_codes _ _ _ H).
  rewrite !(count_same_codes _ _ _ H). reflexivity.
Qed.

Lemma coverage_depends_on_code_set_witness :
  analyze_character_coverage (font_A 5 1 ++ font_greek)
  = analyze_character_coverage (font_greek ++ font_A 5 1 ++ [("065"%string, glyph_at 0 0 2 2)]).
Proof.
  apply coverage_depends_on_code_set.
  intros c. vm_compute. tauto.
Defined.

(** X14.  The coverage labels always come in the fixed order ascii,
    latin1, latinext, cyrillic, greek, kana, bopomofo, boxdraw, symbols,
    upper, each at most once: the result is that list restricted to the
    labels present. *)
Theorem coverage_labels_in_fixed_order fd :
  let labels := analyze_character_coverage fd in
  labels = filter (fun l => existsb (String.eqb l) labels) COVERAGE_ORDER.
Proof.
  intros labels. subst labels. rewrite analyze_character_coverage_eq.
  unfold coverage_labels.
  split_labels; reflexivity.
Qed.

(** X17.  The label [upper] is given exactly when the table has a
    codepoint among the capital letters A-Z and none among the small
    letters a-z; it is then the last label. *)
Theorem upper_label fd :
  let labels := analyze_character_coverage fd in
  (In "upper"%string labels
   <-> (exists c, In c (coverage_codes fd) /\ (65 <= c <= 90)%Z)
       /\ ~ (exists c, In c (coverage_codes fd) /\ (97 <= c <= 122)%Z))
  /\ (In "upper"%string labels -> last labels ""%string = "upper"%string).
Proof.
  intros labels.
  assert (Hspan : forall lo hi c, in_span lo hi c = true <-> (lo <= c <= hi)%Z).
  { intros. unfold in_span. rewrite andb_true_iff, !Z.leb_le. tauto. }
  assert (Hex : forall lo hi,
            existsb (in_span lo hi) (codepoints_of fd) = true
            <-> exists c, In c (coverage_codes fd) /\ (lo <= c <= hi)%Z).
  { intros. unfold codepoints_of. rewrite existsb_nodup.
    split; intros (c & Hc & Hs); exists c; split; trivial; now apply Hspan. }
  subst labels. rewrite analyze_character_coverage_eq. unfold coverage_labels.
  destruct (existsb (in_span 0x41 0x5A) (codepoints_of fd)) eqn:Eu;
    destruct (existsb (in_span 0x61 0x7A) (codepoints_of fd)) eqn:El; simpl andb.
  - split.
    + split.
      * intros H. no_such_label H.
      * intros [_ N]. exfalso. apply N. now apply Hex.
    + intros H. no_such_label H.
  - split.
    + split.
      * intros _. split; [now apply Hex|].
        intros N. apply Hex in N. congruence.
      * intros _. repeat (apply in_or_app; right). now left.
    + intros _.
      split_labels; reflexivity.
  - split.
    + split.
      * intros H. no_such_label H.
      * intros [U _]. apply Hex in U. congruence.
    + intros H. no_such_label H.
  - split.
    + split.
      * intros H. no_such_label H.
      * intros [U _]. apply Hex in U. congruence.
    + intros H. no_such_label H.
Qed.

(** ** What is read from the sprite sheet *)

Lemma fold_left_ext_in {A B : Type} (f g : A -> B -> A) (l : list B) (a : A) :
  (forall acc b, In b l -> f acc b = g acc b) ->
  fold_left f l a = fold_left g l a.
Proof.
  revert a. induction l as [|b l IH]; intros a H; simpl; [reflexivity|].
  rewrite (H a b) by now left. apply IH. intros acc c Hc. apply H. now right.
Qed.

(** X18.  Extraction consults the sprite sheet through [getpixel] at the
    positions [(x + px, y + py)] of the glyph rectangle and through
    nothing else, not even its size: two sheets, or two places of one
    sheet, where the imaging library answers the same over a rectangle of
    the same size give the same rows.  (For a negative coordinate the
    library answers with a pixel counted from the opposite edge, so the
    pixels consulted are those of the rectangle itself only when it lies at
    a non-negative position.) *)
Theorem extraction_reads_the_rectangle im im' x y x' y' width height threshold pat :
  (forall px py, px < width -> py < height ->
     getpixel im (x + px) (y + py) = getpixel im' (x' + px) (y' + py)) ->
  extract_glyph_pixels im x y width height threshold pat
  = extract_glyph_pixels im' x' y' width height threshold pat.
Proof.
  intros H. unfold extract_glyph_pixels.
  destruct ((width =? 0) || (height =? 0)); [reflexivity|].
  apply map_ext_in. intros py Hpy. apply in_seq in Hpy.
  unfold extract_row. apply fold_left_ext_in.
  intros acc px Hpx. apply in_seq in Hpx.
  unfold cell. rewrite H by lia. reflexivity.
Qed.

Lemma extraction_reads_the_rectangle_witness :
  extract_glyph_pixels hue_sheet 0 0 2 1 default_threshold None
  = extract_glyph_pixels hue_sheet (-4) 0 2 1 default_threshold None.
Proof.
  apply extraction_reads_the_rectangle.
  intros px py Hx Hy.
  destruct py as [|py]; [|lia].
  destruct px as [|[|px]]; [reflexivity|reflexivity|lia].
Defined.

Lemma scan_agree im im' x y w h :
  clip im x y w h = clip im' x y w h ->
  (forall lx ly, lx < w -> ly < h ->
     getpixel im (x + lx) (y + ly) = getpixel im' (x + lx) (y + ly)) ->
  scan im x y w h = scan im' x y w h.
Proof.
  unfold clip. intros Hclip H. inversion Hclip as [[Hx Hy]]. unfold scan.
  rewrite Hx, Hy.
  apply flat_map_agree. intros py Hpy. apply in_range in Hpy.
  apply flat_map_agree. intros px Hpx. apply in_range in Hpx.
  specialize (H (Z.to_nat (px - x)) (Z.to_nat (py - y))).
  rewrite !Z2Nat.id in H by lia.
  replace (x + (px - x))%Z with px in H by lia.
  replace (y + (py - y))%Z with py in H by lia.
  rewrite H by lia. reflexivity.
Qed.

(** X19.  The classification consults the sprite sheet through the ends of
    its two loops (the rectangle cut at the right and bottom edges of the
    sheet) and through [getpixel] at the positions of the sampled
    rectangle, and through nothing else: two sheets, of whatever sizes,
    that cut the rectangle alike and where the imaging library answers the
    same over it give the same classification.  (For a negative coordinate
    the library answers with a pixel counted from the opposite edge, so the
    pixels consulted are those of the sample glyph itself only when it lies
    at a non-negative position.) *)
Theorem classification_reads_the_sample im im' fd height x y w h :
  sample_rect fd height = Some (x, y, w, h) ->
  clip im x y w h = clip im' x y w h ->
  (forall lx ly, lx < w -> ly < h ->
     getpixel im (x + lx) (y + ly) = getpixel im' (x + lx) (y + ly)) ->
  analyze_font_pattern im fd height = analyze_font_pattern im' fd height.
Proof.
  intros Hrect Hclip H. pose proof (scan_agree im im' x y w h Hclip H) as Hscan.
  assert (Hpix : sampled_pixels im x y w h = sampled_pixels im' x y w h)
    by (unfold sampled_pixels; now rewrite Hscan).
  assert (Hdet : detect_spatial_pattern im x y w h = detect_spatial_pattern im' x y w h)
    by (unfold detect_spatial_pattern, bright_positions, dark_positions;
        now rewrite Hscan).
  unfold analyze_font_pattern. rewrite Hrect.
  unfold classify_sample, chromatic_branch, single_hue.
  rewrite Hpix, Hdet. reflexivity.
Qed.

Lemma classification_reads_the_sample_witness :
  analyze_font_pattern gray_sheet (font_A 4 1) 13
  = analyze_font_pattern plain_sheet (font_A 4 1) 13.
Proof.
  apply (classification_reads_the_sample gray_sheet plain_sheet (font_A 4 1) 13
           0%Z 0%Z 4 1 eq_refl eq_refl).
  intros lx ly Hx Hy.
  destruct ly as [|ly]; [|lia].
  destruct lx as [|[|[|[|lx]]]]; try reflexivity. lia.
Defined.

(** ** Reported dimensions *)

Lemma analyze_dims im fd height :
  let p := analyze_font_pattern im fd height in
  (is_monospace p = None /\ max_width p = None /\ max_height p = None)
  \/ (is_monospace p = Some (is_monospace_of fd)
      /\ max_width p = Some (max_width_of fd height)
      /\ max_height p = Some (max_height_of fd height)).
Proof.
  apply analyze_cases; intros; try split; simpl; auto.
Qed.

Lemma max_list_bound l x : In x l -> x <= max_list l.
Proof.
  induction l as [|a l IH]; simpl; [contradiction|].
  intros [->|H]; [lia|]. specialize (IH H). lia.
Qed.

Lemma distinct_one l :
  distinct Nat.eq_dec l = 1 -> forall a b, In a l -> In b l -> a = b.
Proof.
  unfold distinct. intros H a b Ha Hb.
  apply (nodup_In Nat.eq_dec) in Ha. apply (nodup_In Nat.eq_dec) in Hb.
  destruct (nodup Nat.eq_dec l) as [|c [|c' rest]]; simpl in H; try discriminate.
  destruct Ha as [<-|[]]. destruct Hb as [<-|[]]. reflexivity.
Qed.

(** X20.  When the classification carries the dimension keys, no glyph
    entry of the table is taller than the reported [max_height], and none
    that has a width of its own or falls back on a default width is wider
    than the reported [max_width]; a font reported monospace without a
    default width has one and the same width in every entry that states
    its width. *)
Theorem reported_dimensions_bound_the_glyphs im fd height :
  let p := analyze_font_pattern im fd height in
  let dflt := defaults_of fd in
  (forall m, max_height p = Some m ->
     forall k d, In (k, d) (glyph_entries fd) ->
       snd (resolve dflt height d) <= m)
  /\ (forall m, max_width p = Some m ->
        forall k d, In (k, d) (glyph_entries fd) ->
          g_w d <> None \/ g_w dflt <> None ->
          snd (fst (resolve dflt height d)) <= m)
  /\ (is_monospace p = Some true -> g_w dflt = None ->
      forall k d k' d' w w',
        In (k, d) (glyph_entries fd) -> In (k', d') (glyph_entries fd) ->
        g_w d = Some w -> g_w d' = Some w' -> w = w').
Proof.
  intros p dflt.
  destruct (analyze_dims im fd height) as [(Hm & Hw & Hh)|(Hm & Hw & Hh)];
    fold p in Hm, Hw, Hh; [rewrite Hm, Hw, Hh; repeat split; discriminate|].
  rewrite Hm, Hw, Hh. split; [|split].
  - intros m E k d Hin. inversion E; subst m. clear E.
    unfold max_height_of.
    assert (Hx : In (snd (resolve dflt height d))
                   (heights_of fd (get_or (g_h (defaults_of fd)) height))).
    { unfold heights_of. apply in_map_iff. exists (k, d). split; [reflexivity|exact Hin]. }
    destruct (heights_of fd _) as [|a l] eqn:El; [contradiction|].
    now apply max_list_bound.
  - intros m E k d Hin Hdecl. inversion E; subst m. clear E.
    unfold max_width_of.
    assert (Hx : In (snd (fst (resolve dflt height d)))
                   (widths_of fd (g_w (defaults_of fd)))).
    { unfold widths_of. apply in_flat_map. exists (k, d). split; [exact Hin|].
      unfold resolve, dflt in *. simpl.
      destruct (g_w d) eqn:E1; [now left|].
      destruct (g_w (defaults_of fd)) eqn:E2; [now left|].
      destruct Hdecl as [N|N]; now contradiction N. }
    destruct (widths_of fd _) as [|a l] eqn:El; [contradiction|].
    now apply max_list_bound.
  - intros E Hnone k d k' d' w w' Hin Hin' Ew Ew'. inversion E as [Emono].
    unfold is_monospace_of in Emono. fold dflt in Emono. rewrite Hnone in Emono.
    assert (Hx : forall k0 d0 w0, In (k0, d0) (glyph_entries fd) -> g_w d0 = Some w0 ->
                   In w0 (widths_of fd None)).
    { intros k0 d0 w0 Hin0 E0. unfold widths_of. apply in_flat_map.
      exists (k0, d0). split; [exact Hin0|]. simpl. rewrite E0. now left. }
    pose proof (Hx k d w Hin Ew) as H1. pose proof (Hx k' d' w' Hin' Ew') as H2.
    destruct (widths_of fd None) as [|a l] eqn:El; [contradiction|].
    apply Nat.eqb_eq in Emono.
    eapply distinct_one; eassumption.
Qed.

Lemma reported_dimensions_bound_the_glyphs_witness :
  snd (resolve (defaults_of font_AB) 13
         {| g_x := Some 0%Z; g_y := Some 0%Z; g_w := Some 3; g_h := Some 1;
            g_right_bearing := None |}) <= 1.
Proof.
  apply (proj1 (reported_dimensions_bound_the_glyphs hue_sheet font_AB 13)
           1 eq_refl "66"%string).
  vm_compute. right. left. reflexivity.
Defined.

(** ** File names *)

Lemma string_of_uint_digits d :
  all_digits (DecimalString.NilEmpty.string_of_uint d).
Proof.
  unfold all_digits, row_chars.
  induction d; simpl; constructor; trivial.
Qed.

Lemma str_nat_digits n : all_digits (str_nat n).
Proof.
  unfold str_nat, DecimalString.NilZero.string_of_uint.
  destruct (Nat.to_uint n) eqn:E; try (rewrite <- E; apply string_of_uint_digits).
  repeat constructor.
Qed.

Lemma digits_then_x a a' b b' :
  all_digits a -> all_digits a' ->
  (a ++ "x" ++ b)%string = (a' ++ "x" ++ b')%string -> a = a' /\ b = b'.
Proof.
  unfold all_digits, row_chars. revert a'.
  induction a as [|c a IH]; intros [|c' a'] Ha Ha' E; simpl in *.
  - inversion E. auto.
  - inversion E; subst. inversion Ha' as [|? ? Hc _]. discriminate Hc.
  - inversion E; subst. inversion Ha as [|? ? Hc _]. discriminate Hc.
  - inversion E; subst. inversion Ha; inversion Ha'; subst.
    destruct (IH a') as [-> ->]; auto.
Qed.

Lemma digits_have_no_x a b s :
  all_digits a -> all_digits s -> (a ++ "x" ++ b)%string <> s.
Proof.
  unfold all_digits, row_chars. revert s.
  induction a as [|c a IH]; intros [|c' s] Ha Hs E; simpl in *; try discriminate.
  - inversion E; subst. inversion Hs as [|? ? Hc _]. discriminate Hc.
  - inversion E; subst. inversion Ha; inversion Hs; subst. eapply IH; eauto.
Qed.

Lemma append_cancel_left (a b c : string) : (a ++ b)%string = (a ++ c)%string -> b = c.
Proof. induction a as [|x a IH]; simpl; intros E; [exact E|]. inversion E. auto. Qed.

Lemma append_cancel_right (b c s : string) : (b ++ s)%string = (c ++ s)%string -> b = c.
Proof.
  intros E. apply (f_equal row_chars) in E. rewrite !row_chars_app in E.
  apply app_inv_tail in E. unfold row_chars in E.
  rewrite <- (string_of_list_ascii_of_string b), <- (string_of_list_ascii_of_string c).
  now rewrite E.
Qed.

(** X21.  The name of the file a (sub)font is written to tells its reported
    dimensions without ambiguity: for one key and one table, two
    classifications lead to the same file name only if they report the same
    monospace flag, the same maximum height and, for a monospace font, the
    same maximum width. *)
Theorem file_name_tells_dimensions key fd p height p' height' :
  output_name key fd p height = output_name key fd p' height' ->
  reported_monospace p = reported_monospace p'
  /\ reported_max_height p height = reported_max_height p' height'
  /\ (reported_monospace p = true ->
      reported_max_width p height = reported_max_width p' height').
Proof.
  unfold output_name. intros E.
  apply append_cancel_left, append_cancel_left, append_cancel_right in E.
  unfold dim_suffix, reported_monospace, reported_max_height, reported_max_width in *.
  destruct (get_or (is_monospace p) false); destruct (get_or (is_monospace p') false);
    simpl in E; inversion E as [E'].
  - apply digits_then_x in E' as [Hh Hw]; try apply str_nat_digits.
    apply str_nat_inj in Hh. apply str_nat_inj in Hw. auto.
  - exfalso. revert E'. apply digits_have_no_x; apply str_nat_digits.
  - exfalso. symmetry in E'. revert E'. apply digits_have_no_x; apply str_nat_digits.
  - apply str_nat_inj in E'. repeat split; auto. discriminate.
Qed.

Lemma file_name_tells_dimensions_witness :
  type (analyze_font_pattern hue_sheet font_AB 13)
  <> type (analyze_font_pattern gray_sheet font_AB 13)
  /\ reported_max_height (analyze_font_pattern hue_sheet font_AB 13) 13
     = reported_max_height (analyze_font_pattern gray_sheet font_AB 7) 7.
Proof.
  split; [vm_compute; discriminate|].
  apply (file_name_tells_dimensions "k" font_AB
           (analyze_font_pattern hue_sheet font_AB 13) 13
           (analyze_font_pattern gray_sheet font_AB 7) 7).
  vm_compute. reflexivity.
Defined.

(** ** Samples of one solid colour *)

Lemma constant_list {A : Type} (c : A) (l : list A) :
  (forall p, In p l -> p = c) -> l = repeat c (List.length l).
Proof.
  induction l as [|a l IH]; simpl; intros H; [reflexivity|].
  rewrite (H a) by now left. f_equal. apply IH. intros p Hp. apply H. now right.
Qed.

Lemma count_repeat {A : Type} (f : A -> bool) (c : A) n :
  count f (repeat c n) = if f c then n else 0.
Proof.
  unfold count. induction n as [|n IH]; simpl; [now destruct (f c)|].
  destruct (f c); simpl; now rewrite IH.
Qed.

Lemma distinct_repeat (c : Z * Z * Z) n :
  distinct rgb_eq_dec (repeat c (S n)) = 1.
Proof.
  unfold distinct. induction n as [|n IH]; [reflexivity|].
  change (repeat c (S (S n))) with (c :: repeat c (S n)).
  cbn [nodup]. destruct (in_dec rgb_eq_dec c (repeat c (S n))) as [_|N].
  - exact IH.
  - exfalso. apply N. now left.
Qed.

Lemma map_repeat {A B : Type} (f : A -> B) (c : A) n :
  map f (repeat c n) = repeat (f c) n.
Proof. induction n as [|n IH]; simpl; [reflexivity|now rewrite IH]. Qed.

Lemma count_constant {A : Type} (f : A -> bool) (c : A) (l : list A) :
  (forall p, In p l -> p = c) ->
  count f l = if f c then List.length l else 0.
Proof.
  intros H. rewrite (constant_list c l H) at 1. apply count_repeat.
Qed.

Lemma distinct_constant (c : rgba) (l : list rgba) :
  l <> [] -> (forall p, In p l -> p = c) ->
  distinct rgb_eq_dec (map rgb_of l) = 1.
Proof.
  intros Hne H. rewrite (constant_list c l H), map_repeat.
  destruct l as [|a l']; [contradiction|]. simpl List.length.
  apply distinct_repeat.
Qed.

Lemma tenth_below n : 0 < n -> Qlt_bool (qnat n * (1 # 10)) (qnat n) = true.
Proof.
  intros H. apply Qlt_bool_iff. unfold qnat, Qlt, Qmult. cbn [Qnum Qden Pos.mul]. lia.
Qed.

Lemma fifth_below n : 0 < n -> Qlt_bool (qnat n * (2 # 10)) (qnat n) = true.
Proof.
  intros H. apply Qlt_bool_iff. unfold qnat, Qlt, Qmult. cbn [Qnum Qden Pos.mul]. lia.
Qed.

Lemma nothing_below_zero n (k : positive) :
  Qlt_bool (qnat n * (Z.pos k # 10)) (qnat 0) = false.
Proof.
  apply Qlt_bool_false_iff. unfold qnat, Qle, Qmult. cbn [Qnum Qden Z.of_nat].
  nia.
Qed.

(** X22.  A sample that shows one single chromatic colour, at one alpha
    above 200, is classified [multi_color] and the font is skipped: with
    only one colour there is never both a bright and a dark population. *)
Theorem solid_chromatic_sample_is_skipped im fd height x y w h c :
  sample_rect fd height = Some (x, y, w, h) ->
  sampled_pixels im x y w h <> [] ->
  (forall p, In p (sampled_pixels im x y w h) -> p = c) ->
  is_chromatic c = true ->
  let p := analyze_font_pattern im fd height in
  type p = multi_color /\ skip p = true.
Proof.
  intros Hrect Hne Hall Hc p. subst p.
  unfold analyze_font_pattern. rewrite Hrect. unfold classify_sample.
  pose proof (constant_list c _ Hall) as Hl.
  destruct (sampled_pixels im x y w h) as [|px0 rest] eqn:E; [contradiction|].
  set (pixels := px0 :: rest) in *.
  assert (Hchrom : Qlt_bool (qnat (List.length pixels) * (1 # 10))
                     (qnat (count is_chromatic pixels)) = true).
  { rewrite Hl at 2. rewrite count_repeat, Hc. apply tenth_below. simpl. lia. }
  rewrite Hchrom.
  destruct (chromatic_branch_type im fd height pixels x y w h) as (Hiff & Hskip & _).
  assert (Ht : type (chromatic_branch im fd height pixels x y w h) = multi_color).
  { apply Hiff. intros [_ [Hb Hd]].
    rewrite Hl, count_repeat in Hb. rewrite Hl, count_repeat in Hd.
    destruct (is_bright_opaque c) eqn:Eb; [|lia].
    rewrite (bright_dark_disjoint c Eb) in Hd. lia. }
  split; [exact Ht|now apply Hskip].
Qed.

Lemma solid_chromatic_sample_is_skipped_witness :
  type (analyze_font_pattern hue_sheet (font_A 3 1) 13) = multi_color
  /\ skip (analyze_font_pattern hue_sheet (font_A 3 1) 13) = true.
Proof.
  apply (solid_chromatic_sample_is_skipped hue_sheet (font_A 3 1) 13 0 0 3 1
           (opaque 255 0 0) eq_refl).
  - vm_compute. discriminate.
  - intros p Hp. simpl in Hp.
    repeat (destruct Hp as [Hp|Hp]; [now subst|]). contradiction.
  - reflexivity.
Defined.

(** X23.  A sample that shows one single colour without chroma (its
    channels within 40 of one another) at alpha 240 or more is never
    skipped and sets no removal flag: it is classified [antialiased] when
    the colour is a mid gray (channels in 50..200, neighbours within 30)
    and [monochrome_solid] otherwise. *)
Theorem solid_achromatic_sample im fd height x y w h r g b a :
  sample_rect fd height = Some (x, y, w, h) ->
  sampled_pixels im x y w h <> [] ->
  (forall p, In p (sampled_pixels im x y w h) -> p = (r, g, b, a)) ->
  (240 <= a)%Z ->
  (Z.max (Z.max (Z.abs (r - g)) (Z.abs (g - b))) (Z.abs (r - b)) <= 40)%Z ->
  let p := analyze_font_pattern im fd height in
  type p = (if is_gray (r, g, b, a) then antialiased else monochrome_solid)
  /\ skip p = false
  /\ remove_shadow p = None /\ remove_outline p = None.
Proof.
  intros Hrect Hne Hall Ha Hd p. subst p.
  set (c := (r, g, b, a)) in *.
  assert (Hc : is_chromatic c = false).
  { unfold c. simpl. apply andb_false_iff. right. apply Z.ltb_ge. exact Hd. }
  assert (Hs : is_semi_transparent c = false).
  { unfold c. simpl. apply andb_false_iff. right. apply Z.ltb_ge. exact Ha. }
  unfold analyze_font_pattern. rewrite Hrect. unfold classify_sample.
  pose proof (fun f => @count_constant rgba f c _ Hall) as Hcount.
  pose proof (distinct_constant c _ Hne Hall) as Hdist.
  destruct (sampled_pixels im x y w h) as [|px0 rest] eqn:E; [contradiction|].
  set (pixels := px0 :: rest) in *.
  assert (Hpos : 0 < List.length pixels) by (simpl; lia).
  rewrite (Hcount is_chromatic), Hc, nothing_below_zero.
  unfold achromatic_rules.
  rewrite (Hcount is_white), (Hcount is_black), (Hcount is_gray),
    (Hcount is_semi_transparent), Hs, Hdist.
  destruct (is_white c) eqn:Ew.
  - rewrite (white_black_disjoint c Ew).
    destruct (is_gray c) eqn:Eg.
    + rewrite (fifth_below _ Hpos). cbn [andb orb Nat.ltb Nat.leb].
      repeat split.
    + rewrite nothing_below_zero. cbn [andb orb Nat.ltb Nat.leb]. repeat split.
  - destruct (is_black c);
      (destruct (is_gray c) eqn:Eg;
       [rewrite (fifth_below _ Hpos)|rewrite nothing_below_zero]);
      cbn [andb orb Nat.ltb Nat.leb Nat.eqb]; repeat split.
Qed.

Lemma solid_achromatic_sample_witness :
  type (analyze_font_pattern gray_sheet (font_A 4 1) 13) = antialiased.
Proof.
  apply (solid_achromatic_sample gray_sheet (font_A 4 1) 13 0 0 4 1
           128 128 128 255 eq_refl)%Z.
  - vm_compute. discriminate.
  - intros p Hp. simpl in Hp.
    repeat (destruct Hp as [Hp|Hp]; [now subst|]). contradiction.
  - lia.
  - vm_compute. discriminate.
Defined.
